(** * QR code model, destination resolution, validation, enrichment and the
      scan and form handlers of the QR code app.

    Sources embedded here:
    - [app/models/QRCode.server]: [getQRCode], [getQRCodes], [getQRCodeImage],
      [getDestinationUrl], [supplementQRCode], [validateQRCode];
    - [app/routes/qrcodes.$id.scan.jsx]: the scan [loader];
    - [app/routes/app.qrcodes.$id.jsx]: the form [action].

    JavaScript values are modelled as follows.  Strings are [string]; the
    numeric columns [id] and [scans] are [Z]; a value that may be [undefined]
    or [null] is an [option]; a plain object used as a dictionary (the form
    data, the validation errors) is a [gmap string string]; a thrown exception
    or a rejected promise is the [Err] branch of [result]. *)

From Stdlib Require Import ZArith Ascii String DecimalString DecimalPos DecimalZ.
From stdpp Require Import base option list strings gmap sorting.

Local Open Scope Z_scope.

(** ** Exceptions and results *)

Inductive error : Type :=
  | InvariantFailed (message : string)   (* thrown by tiny-invariant *)
  | Rejected (reason : string).          (* a collaborator threw or rejected *)

Inductive result (A : Type) : Type :=
  | OK (a : A)
  | Err (e : error).
Arguments OK {A} a.
Arguments Err {A} e.

(** [invariant(condition, message)] of tiny-invariant: returns when the
    condition is truthy and throws otherwise.  The condition is passed as an
    [option]: [None] stands for a falsy value. *)
Definition invariant {A : Type} (condition : option A) (message : string) : result A :=
  match condition with
  | Some a => OK a
  | None => Err (InvariantFailed message)
  end.

(** ** The persisted record *)

Record QRCode : Type := mkQRCode {
  id : Z;
  title : string;
  shop : string;
  productId : string;
  productHandle : string;
  productVariantId : string;
  destination : string;
  scans : Z;
  createdAt : Z
}.

(** ** The regular expression of [getDestinationUrl]

    [/gid:\/\/shopify\/ProductVariant\/([0-9]+)/] has no anchors and no flags:
    [exec] tries every start position from left to right, and at a position
    the literal must be followed by at least one digit; the group takes the
    longest run of digits. *)

Definition is_digit (c : ascii) : bool :=
  ((48 <=? nat_of_ascii c)%nat && (nat_of_ascii c <=? 57)%nat)%bool.

Fixpoint all_digits (s : string) : bool :=
  match s with
  | EmptyString => true
  | String c t => (is_digit c && all_digits t)%bool
  end.

(** The longest prefix of [s] made of digits: the greedy [[0-9]+]. *)
Fixpoint take_digits (s : string) : string :=
  match s with
  | EmptyString => EmptyString
  | String c t => if is_digit c then String c (take_digits t) else EmptyString
  end.

(** [strip_literal p s] is [Some rest] when [s = p ++ rest]. *)
Fixpoint strip_literal (p s : string) : option string :=
  match p with
  | EmptyString => Some s
  | String a p' =>
      match s with
      | EmptyString => None
      | String b s' => if Ascii.eqb a b then strip_literal p' s' else None
      end
  end.

Definition variant_literal : string := "gid://shopify/ProductVariant/".

(** The match attempted at the first position of [s]; the result is the
    text of group 1. *)
Definition match_here (s : string) : option string :=
  match strip_literal variant_literal s with
  | Some rest =>
      match take_digits rest with
      | EmptyString => None
      | String c d => Some (String c d)
      end
  | None => None
  end.

(** [regex_exec s] is [match[1]] of the leftmost match, [None] for [null]. *)
Fixpoint regex_exec (s : string) : option string :=
  match match_here s with
  | Some d => Some d
  | None =>
      match s with
      | EmptyString => None
      | String _ t => regex_exec t
      end
  end.

(** Whether the character occurs in the text. *)
Fixpoint occurs (c : ascii) (s : string) : bool :=
  match s with
  | "" => false
  | String x t => (Ascii.eqb c x || occurs c t)%bool
  end.

(** ** [getDestinationUrl] *)

Definition getDestinationUrl (qrCode : QRCode) : result string :=
  if String.eqb (destination qrCode) "product" then
    OK ("https://" +:+ shop qrCode +:+ "/products/" +:+ productHandle qrCode)
  else
    match invariant (regex_exec (productVariantId qrCode))
                    "Unrecognized product variant ID" with
    | Err e => Err e
    | OK digits => OK ("https://" +:+ shop qrCode +:+ "/cart/" +:+ digits +:+ ":1")
    end.

(** What it means for a variant reference to contain the pattern: somewhere
    in it the literal is followed by a non-empty run of digits. *)
Definition matches_variant_pattern (s : string) : Prop :=
  ∃ pre D post : string,
    s = pre +:+ variant_literal +:+ D +:+ post ∧ D ≠ EmptyString ∧ all_digits D = true.

Definition cart_url (shop_ digits : string) : string :=
  "https://" +:+ shop_ +:+ "/cart/" +:+ digits +:+ ":1".

(** ** Collaborators, storage and effects *)

(** Decimal text of an integer, as a template literal prints a number that
    holds an integer. *)
Definition string_of_Z (n : Z) : string := NilZero.string_of_int (Z.to_int n).

(** The product returned by the Admin GraphQL query of [supplementQRCode]:
    its title and the nodes of [images(first: 1)]. *)
Record ImageNode : Type := mkImageNode {
  altText : option string;
  url : string
}.

Record Product : Type := mkProduct {
  product_title : string;
  images_nodes : list ImageNode
}.

(** The calls made to the remote collaborators, in the order they are issued. *)
Inductive call : Type :=
  | GraphqlCall (product : string)
  | EncodeCall (href : string).

(** What the handlers take from their environment:
    - [graphql]: the product-lookup capability followed by [response.json()]
      and the destructuring of [data.product]; [OK None] is a [null] product;
    - [toDataURL]: [qrcode.toDataURL];
    - [app_origin]: scheme and authority of [process.env.SHOPIFY_APP_URL];
      [new URL(path, base)] with a [path] that starts with a slash keeps
      these and replaces the rest of [base];
    - [Number]: the builtin applied to a route parameter, [None] when the
      text denotes no integer (so that no row can carry it as its id);
    - [location_error]: what [redirect] of the framework throws for a
      location: it sets the [Location] header of the response, and setting a
      header throws a [TypeError] for a text that is not a valid header
      value; [None] when the location is accepted. *)
Record Collaborators : Type := mkCollaborators {
  graphql : string → result (option Product);
  toDataURL : string → result string;
  app_origin : string;
  Number : string → option Z;
  location_error : string → option error
}.

(** The table of records with the counters the storage layer keeps, and the
    log of remote calls. *)
Record World : Type := mkWorld {
  table : list QRCode;
  next_id : Z;
  clock : Z;
  calls : list call
}.

Definition with_table (t : list QRCode) (w : World) : World :=
  {| table := t; next_id := next_id w; clock := clock w; calls := calls w |}.

Definition log_call (c : call) (w : World) : World :=
  {| table := table w; next_id := next_id w; clock := clock w;
     calls := calls w ++ [c] |}.

Definition log_calls (cs : list call) (w : World) : World :=
  {| table := table w; next_id := next_id w; clock := clock w;
     calls := calls w ++ cs |}.

(** Asynchronous code: a computation runs in a world and either returns or
    throws; what it did to the world before throwing stays done. *)
Definition M (A : Type) : Type := World → result A * World.

#[global] Instance M_ret : MRet M := λ A a w, (OK a, w).

#[global] Instance M_bind : MBind M := λ A B f m w,
  match m w with
  | (OK a, w') => f a w'
  | (Err e, w') => (Err e, w')
  end.

(** A value or an exception computed without effects. *)
Definition lift {A : Type} (r : result A) : M A := λ w, (r, w).

(** Calling an asynchronous function without [await]: its effects happen,
    its outcome is held by the promise. *)
Definition started {A : Type} (m : M A) : M (result A) := λ w,
  let (r, w') := m w in (OK r, w').

Definition is_OK {A : Type} (r : result A) : bool :=
  match r with OK _ => true | Err _ => false end.

(** [Promise.all] over promises that were all started: the list of values
    when every one is fulfilled.  When some are rejected it rejects with the
    rejection that settles first, which is a matter of timing; the model
    takes the first one in list order. *)
Fixpoint settle_all {A : Type} (rs : list (result A)) : result (list A) :=
  match rs with
  | [] => OK []
  | OK a :: rs' =>
      match settle_all rs' with
      | OK l => OK (a :: l)
      | Err e => Err e
      end
  | Err e :: _ => Err e
  end.

Fixpoint start_each {A B : Type} (f : A → M B) (l : list A) : M (list (result B)) :=
  match l with
  | [] => mret []
  | a :: l' => r ← started (f a); rs ← start_each f l'; mret (r :: rs)
  end.

Definition promise_all_map {A B : Type} (f : A → M B) (l : list A) : M (list B) :=
  rs ← start_each f l; lift (settle_all rs).

(** *** Storage *)

Definition has_id (n : Z) (r : QRCode) : bool := id r =? n.

Definition set_scans (n : Z) (r : QRCode) : QRCode :=
  {| id := id r; title := title r; shop := shop r; productId := productId r;
     productHandle := productHandle r; productVariantId := productVariantId r;
     destination := destination r; scans := n; createdAt := createdAt r |}.

Definition increment_scans (n : Z) (r : QRCode) : QRCode :=
  if has_id n r then set_scans (scans r + 1) r else r.

Definition writable_columns : list string :=
  ["title"; "shop"; "productId"; "productHandle"; "productVariantId"; "destination"].

Definition column (data : gmap string string) (name old : string) : string :=
  default old (data !! name).

Definition replace_columns (data : gmap string string) (r : QRCode) : QRCode :=
  {| id := id r;
     title := column data "title" (title r);
     shop := column data "shop" (shop r);
     productId := column data "productId" (productId r);
     productHandle := column data "productHandle" (productHandle r);
     productVariantId := column data "productVariantId" (productVariantId r);
     destination := column data "destination" (destination r);
     scans := scans r;
     createdAt := createdAt r |}.

Definition blank_row (i now : Z) : QRCode :=
  {| id := i; title := ""; shop := ""; productId := ""; productHandle := "";
     productVariantId := ""; destination := ""; scans := 0; createdAt := now |}.

Definition only_writable (data : gmap string string) : bool :=
  bool_decide (dom data ⊆ list_to_set writable_columns).

Definition all_writable (data : gmap string string) : bool :=
  bool_decide (dom data = list_to_set writable_columns).

(** Modelled from the spec: the module [app/db.server] and the schema of the
    table are missing from the sources.  The spec lists the operations of the
    storage collaborator: find-by-id, find-many-by-shop ordered by id
    descending, create, update (full replace), delete and atomic increment of
    a field.  A lookup returns the first row with the id, [None] for [null]. *)
Definition db_findFirst (n : option Z) : M (option QRCode) := λ w,
  (OK (n ≫= λ i, List.find (has_id i) (table w)), w).

(** Modelled from the spec: find-many-by-shop ordered by id descending
    ([app/db.server] is missing). *)
Definition by_id_desc (a b : QRCode) : Prop := id b ≤ id a.

#[global] Instance by_id_desc_dec (a b : QRCode) : Decision (by_id_desc a b) :=
  decide (id b ≤ id a).

Definition rows_of_shop (s : string) (t : list QRCode) : list QRCode :=
  merge_sort by_id_desc (List.filter (λ r, String.eqb (shop r) s) t).

Definition db_findMany (s : string) : M (list QRCode) := λ w,
  (OK (rows_of_shop s (table w)), w).

(** Modelled from the spec: atomic increment of the scan counter of the row
    with the given id ([app/db.server] is missing); the storage layer rejects
    the write when there is no such row, as the ORM behind it does. *)
Definition db_increment_scans (n : option Z) : M QRCode := λ w,
  match n ≫= λ i, List.find (has_id i) (table w) with
  | Some r =>
      (OK (increment_scans (id r) r),
       with_table (List.map (increment_scans (id r)) (table w)) w)
  | None => (Err (Rejected "Record to update not found."), w)
  end.

(** Modelled from the spec: create ([app/db.server] is missing).  The row
    gets the next id, a zero scan counter and the current time; the storage
    layer wants every writable column and nothing else. *)
Definition db_create (data : gmap string string) : M QRCode := λ w,
  if all_writable data then
    let r := replace_columns data (blank_row (next_id w) (clock w)) in
    (OK r, {| table := table w ++ [r]; next_id := next_id w + 1;
              clock := clock w; calls := calls w |})
  else (Err (Rejected "Invalid data for create."), w).

(** Modelled from the spec: update, a full replace of the columns the form
    carries ([app/db.server] is missing).  Id, scan counter and creation time
    stay; the storage layer rejects unknown columns and a missing row. *)
Definition db_update (n : option Z) (data : gmap string string) : M QRCode := λ w,
  if only_writable data then
    match n ≫= λ i, List.find (has_id i) (table w) with
    | Some r =>
        (OK (replace_columns data r),
         with_table
           (List.map (λ x, if has_id (id r) x then replace_columns data x else x)
                     (table w)) w)
    | None => (Err (Rejected "Record to update not found."), w)
    end
  else (Err (Rejected "Invalid data for update."), w).

(** Modelled from the spec: delete ([app/db.server] is missing); the storage
    layer rejects the removal of a row that does not exist. *)
Definition db_delete (n : option Z) : M QRCode := λ w,
  match n ≫= λ i, List.find (has_id i) (table w) with
  | Some r =>
      (OK r, with_table (List.filter (λ x, negb (has_id (id r) x)) (table w)) w)
  | None => (Err (Rejected "Record to delete does not exist."), w)
  end.

(** ** The model module: [app/models/QRCode.server] *)

(** The augmented object returned by [supplementQRCode]: the spread record
    and the six keys added to it. *)
Record View : Type := mkView {
  qrCode_fields : QRCode;
  productDeleted : bool;
  productTitle : option string;
  productImage : option string;
  productAlt : option string;
  destinationUrl : string;
  image : string
}.

(** Truthiness of a string that may be [undefined]. *)
Definition truthy (v : option string) : bool :=
  match v with
  | Some (String _ _) => true
  | _ => false
  end.

(** The value itself when it is truthy, as [invariant] wants it. *)
Definition truthy_value (v : option string) : option string :=
  if truthy v then v else None.

Section Model.
Context (W : Collaborators).

Definition scan_href (n : Z) : string :=
  app_origin W +:+ "/qrcodes/" +:+ string_of_Z n +:+ "/scan".

Definition getQRCodeImage (n : Z) : M string := λ w,
  let href := scan_href n in
  (toDataURL W href, log_call (EncodeCall href) w).

Definition query_product (product : string) : M (option Product) := λ w,
  (graphql W product, log_call (GraphqlCall product) w).

(** The remote calls one enrichment issues. *)
Definition supplement_calls (qrCode : QRCode) : list call :=
  [EncodeCall (scan_href (id qrCode)); GraphqlCall (productId qrCode)].

Definition supplementQRCode (qrCode : QRCode) : M View :=
  qrCodeImagePromise ← started (getQRCodeImage (id qrCode));
  product ← query_product (productId qrCode);
  destinationUrl_ ← lift (getDestinationUrl qrCode);
  image_ ← lift qrCodeImagePromise;
  mret {| qrCode_fields := qrCode;
          productDeleted := negb (truthy (product_title <$> product));
          productTitle := product_title <$> product;
          productImage := url <$> (product ≫= λ p, head (images_nodes p));
          productAlt := product ≫= λ p, head (images_nodes p) ≫= altText;
          destinationUrl := destinationUrl_;
          image := image_ |}.

(** What [supplementQRCode] returns or throws, read off without the world:
    the lookup is awaited first, the destination is resolved while the
    result object is built, and the image promise is awaited last.
    [supplementQRCode_run] shows that the two agree. *)
Definition supplement_outcome (qrCode : QRCode) : result View :=
  match graphql W (productId qrCode) with
  | Err e => Err e
  | OK product =>
      match getDestinationUrl qrCode with
      | Err e => Err e
      | OK destinationUrl_ =>
          match toDataURL W (scan_href (id qrCode)) with
          | Err e => Err e
          | OK image_ =>
              OK {| qrCode_fields := qrCode;
                    productDeleted := negb (truthy (product_title <$> product));
                    productTitle := product_title <$> product;
                    productImage := url <$> (product ≫= λ p, head (images_nodes p));
                    productAlt := product ≫= λ p, head (images_nodes p) ≫= altText;
                    destinationUrl := destinationUrl_;
                    image := image_ |}
          end
      end
  end.

Definition getQRCode (n : option Z) : M (option View) :=
  qrCode ← db_findFirst n;
  match qrCode with
  | None => mret None
  | Some r => v ← supplementQRCode r; mret (Some v)
  end.

Definition getQRCodes (shop_ : string) : M (list View) :=
  qrCodes ← db_findMany shop_;
  if (length qrCodes =? 0)%nat then mret []
  else promise_all_map supplementQRCode qrCodes.
End Model.

Definition validateQRCode (data : gmap string string) : option (gmap string string) :=
  let errors : gmap string string := ∅ in
  let errors :=
    if truthy (data !! "title") then errors
    else <["title" := "Title is required"]> errors in
  let errors :=
    if truthy (data !! "productId") then errors
    else <["productId" := "Product is required"]> errors in
  let errors :=
    if truthy (data !! "destination") then errors
    else <["destination" := "Destination is required"]> errors in
  if (size errors =? 0)%nat then None else Some errors.

(** The three presence checks as data, to run them in any order. *)
Definition required_fields : list (string * string) :=
  [("title", "Title is required");
   ("productId", "Product is required");
   ("destination", "Destination is required")].

Definition check_field (data : gmap string string) (errors : gmap string string)
    (f : string * string) : gmap string string :=
  if truthy (data !! f.1) then errors else <[f.1 := f.2]> errors.

Definition validate_in_order (checks : list (string * string))
    (data : gmap string string) : option (gmap string string) :=
  let errors := foldl (check_field data) ∅ checks in
  if (size errors =? 0)%nat then None else Some errors.

Definition missing_fields (data : gmap string string) : list (string * string) :=
  filter (λ f, truthy (data !! f.1) = false) required_fields.

(** ** The routes *)

Inductive response : Type :=
  | Redirect (location : string)
  | Json (status : Z) (errors : gmap string string).

Definition not_found : error := InvariantFailed "Could not find QR code destination".

Section Routes.
Context (W : Collaborators).

Definition js_Number (v : option string) : option Z := v ≫= Number W.

(** [redirect(url)] with a location that comes from stored data: the
    response when the location is accepted as a header value, the
    [TypeError] of the header otherwise. *)
Definition redirect (location : string) : result response :=
  match location_error W location with
  | None => OK (Redirect location)
  | Some e => Err e
  end.

(** [app/routes/qrcodes.$id.scan.jsx] *)
Definition loader (params_id : option string) : M response :=
  _ ← lift (invariant (truthy_value params_id) "Could not find QR code destination");
  let id_ := js_Number params_id in
  found ← db_findFirst id_;
  qrCode ← lift (invariant found "Could not find QR code destination");
  _ ← db_increment_scans id_;
  location ← lift (getDestinationUrl qrCode);
  lift (redirect location).

(** [app/routes/app.qrcodes.$id.jsx]; [shop_] is the shop of the
    authenticated session and [form] the entries of the posted form.  The two
    locations it redirects to, [/app] and [/app/qrcodes/<id>] with the id in
    decimal, are made of letters, digits and slashes only, which every
    header accepts. *)
Definition action (shop_ : string) (params_id : option string)
    (form : gmap string string) : M response :=
  let data := <["shop" := shop_]> form in
  if bool_decide (data !! "action" = Some "delete") then
    _ ← db_delete (js_Number params_id);
    mret (Redirect "/app")
  else
    match validateQRCode data with
    | Some errors => mret (Json 422 errors)
    | None =>
        qrCode ← (if bool_decide (params_id = Some "new") then db_create data
                  else db_update (js_Number params_id) data);
        mret (Redirect ("/app/qrcodes/" +:+ string_of_Z (id qrCode)))
    end.
End Routes.

(** ** The other routes and what composes the handlers *)

(** Whether the text begins with a digit. *)
Definition starts_with_digit (s : string) : bool :=
  match s with
  | EmptyString => false
  | String c _ => is_digit c
  end.

(** [app/routes/qrcodes.$id.jsx]: the public page of a QR code.  Its loader
    answers with the title of the record and the image for its id. *)
Record Page : Type := mkPage {
  page_title : string;
  page_image : string
}.

Module PublicPage.
Section Route.
Context (W : Collaborators).

(** [getQRCodeImage(id)] is given the number read from the route.  A row was
    found under that number when the call is reached, so the number is an
    integer there; the other branch is never taken. *)
Definition loader (params_id : option string) : M Page :=
  _ ← lift (invariant (truthy_value params_id) "Could not find QR code destination");
  let id_ := js_Number W params_id in
  found ← db_findFirst id_;
  qrCode ← lift (invariant found "Could not find QR code destination");
  image_ ← match id_ with
           | Some n => getQRCodeImage W n
           | None => lift (Err not_found)
           end;
  mret {| page_title := title qrCode; page_image := image_ |}.
End Route.
End PublicPage.

(** [app/routes/app.qrcodes.$id.jsx]: the loader of the form and the two
    flags the form derives from the navigation state. *)
Inductive FormData : Type :=
  | NewDraft (destination_ title_ : string)
  | Existing (view : option View).

Record Navigation : Type := mkNavigation {
  nav_state : string;
  nav_formData : option (gmap string string)
}.

Module FormPage.
Section Route.
Context (W : Collaborators).

Definition loader (params_id : option string) : M FormData :=
  if bool_decide (params_id = Some "new") then mret (NewDraft "product" "")
  else v ← getQRCode W (js_Number W params_id); mret (Existing v).
End Route.

(** [nav.formData?.get("action")] *)
Definition submitted_action (nav : Navigation) : option string :=
  nav_formData nav ≫= λ f, f !! "action".

Definition isSaving (nav : Navigation) : bool :=
  String.eqb (nav_state nav) "submitting"
  && negb (bool_decide (submitted_action nav = Some "delete")).

Definition isDeleting (nav : Navigation) : bool :=
  String.eqb (nav_state nav) "submitting"
  && bool_decide (submitted_action nav = Some "delete").
End FormPage.

(** [app/routes/app._index.jsx]: the loader of the listing and [truncate].
    [length] and [slice] count UTF-16 code units, so a text is here the list
    of its code units; the ellipsis is the single unit U+2026. *)
Module IndexPage.
Section Route.
Context (W : Collaborators).

Definition loader (shop_ : string) : M (list View) := getQRCodes W shop_.
End Route.

Definition ellipsis : list N := [8230%N].

(** [str.slice(0, end)]: a negative [end] counts from the end of the text. *)
Definition slice_from_start (str : list N) (end_ : Z) : list N :=
  let len := Z.of_nat (length str) in
  let to := if end_ <? 0 then Z.max (len + end_) 0 else Z.min end_ len in
  take (Z.to_nat to) str.

(** [truncate(str, { length = 25 } = {})]; [None] is an absent text, an
    absent option or an option without [length]. *)
Definition truncate (str : option (list N)) (length_option : option Z) : list N :=
  let length_ := default 25 length_option in
  match str with
  | None => []
  | Some [] => []
  | Some s =>
      if Z.of_nat (length s) <=? length_ then s
      else slice_from_start s length_ ++ ellipsis
  end.
End IndexPage.

(** The ids of a table are those of a primary key with an increasing
    counter: no id twice, every id below the next one to be given. *)
Definition ids_fresh (w : World) : Prop :=
  NoDup (id <$> table w) ∧ Forall (λ r, id r < next_id w) (table w).

#[global] Instance ids_fresh_dec (w : World) : Decision (ids_fresh w) :=
  and_dec (decide (NoDup (id <$> table w)))
          (decide (Forall (λ r, id r < next_id w) (table w))).

(** The world after the same scan request has been served [k] times. *)
Fixpoint scan_times (W : Collaborators) (params_id : option string) (k : nat)
    (w : World) : World :=
  match k with
  | O => w
  | S k' => scan_times W params_id k' (snd (loader W params_id w))
  end.

(** The row that holds the posted columns. *)
Definition posted_row (i : Z) (shop_ t p v h d : string) (count created : Z) : QRCode :=
  {| id := i; title := t; shop := shop_; productId := p; productHandle := h;
     productVariantId := v; destination := d; scans := count; createdAt := created |}.

(** ** Sample data *)

(** A record with an empty destination and no variant reference. *)
Definition blank_kind_code : QRCode :=
  {| id := 5; title := "Blank"; shop := "demo.myshopify.com";
     productId := "gid://shopify/Product/404"; productHandle := "gone";
     productVariantId := ""; destination := ""; scans := 0; createdAt := 104 |}.

(** A product-page record whose product is gone upstream. *)
Definition orphan_code : QRCode :=
  {| id := 6; title := "Orphan"; shop := "demo.myshopify.com";
     productId := "gid://shopify/Product/404"; productHandle := "gone";
     productVariantId := "gid://shopify/ProductVariant/9";
     destination := "product"; scans := 2; createdAt := 105 |}.

(** A cart record of another shop. *)
Definition other_shop_code : QRCode :=
  {| id := 7; title := "Elsewhere"; shop := "other.myshopify.com";
     productId := "gid://shopify/Product/10"; productHandle := "mug";
     productVariantId := "gid://shopify/ProductVariant/12345";
     destination := "cart"; scans := 1; createdAt := 106 |}.

(** A cart record whose product is gone upstream and whose variant
    reference does not name a variant. *)
Definition orphan_cart_code : QRCode :=
  {| id := 8; title := "Orphan cart"; shop := "demo.myshopify.com";
     productId := "gid://shopify/Product/404"; productHandle := "gone";
     productVariantId := "gid://shopify/Product/404";
     destination := "cart"; scans := 0; createdAt := 107 |}.

(** What the form posts on save and on delete. *)
Definition save_form (t p v h d : string) : gmap string string :=
  {[ "title" := t; "productId" := p; "productVariantId" := v;
     "productHandle" := h; "destination" := d ]}.

Definition delete_form : gmap string string := {[ "action" := "delete" ]}.

(** A cart record whose variant reference has text around the reference. *)
Definition noisy_cart_code : QRCode :=
  {| id := 9; title := "Noisy"; shop := "demo.myshopify.com";
     productId := "gid://shopify/Product/10"; productHandle := "mug";
     productVariantId := "see gid://shopify/ProductVariant/420?x";
     destination := "cart"; scans := 0; createdAt := 108 |}.

(** A product record whose handle holds a line feed. *)
Definition line_feed_code : QRCode :=
  {| id := 10; title := "Line feed"; shop := "demo.myshopify.com";
     productId := "gid://shopify/Product/10";
     productHandle := String (ascii_of_nat 10) "mug";
     productVariantId := "gid://shopify/ProductVariant/12345";
     destination := "product"; scans := 3; createdAt := 109 |}.

(** Whether the text holds only the printable characters of ASCII. *)
Fixpoint printable (s : string) : bool :=
  match s with
  | EmptyString => true
  | String c t =>
      ((32 <=? nat_of_ascii c)%nat && (nat_of_ascii c <=? 126)%nat && printable t)%bool
  end.

Definition mug : Product :=
  {| product_title := "Mug";
     images_nodes := [ {| altText := Some "A mug"; url := "https://cdn.example.com/mug.png" |} ] |}.

(** Collaborators for the examples: the catalogue knows one product, the
    encoder wraps the link in a payload, and the route parameter is read as
    a decimal integer. *)
Definition demo : Collaborators :=
  {| graphql := λ product,
       if String.eqb product "gid://shopify/Product/10" then OK (Some mug) else OK None;
     toDataURL := λ href, OK ("data:image/png;base64," +:+ href);
     app_origin := "https://app.example.com";
     Number := λ s, Z.of_int <$> NilZero.int_of_string s;
     location_error := λ location,
       if printable location then None
       else Some (Rejected "Invalid character in header content [Location]") |}.


Definition mug_product_code : QRCode :=
  {| id := 1; title := "Mug"; shop := "demo.myshopify.com";
     productId := "gid://shopify/Product/10"; productHandle := "mug";
     productVariantId := "gid://shopify/ProductVariant/12345";
     destination := "product"; scans := 0; createdAt := 100 |}.

Definition mug_cart_code : QRCode :=
  {| id := 2; title := "Mug to cart"; shop := "demo.myshopify.com";
     productId := "gid://shopify/Product/10"; productHandle := "mug";
     productVariantId := "gid://shopify/ProductVariant/12345";
     destination := "cart"; scans := 7; createdAt := 101 |}.

(** A cart record whose variant reference names a product, not a variant. *)
Definition broken_cart_code : QRCode :=
  {| id := 3; title := "Broken"; shop := "demo.myshopify.com";
     productId := "gid://shopify/Product/10"; productHandle := "mug";
     productVariantId := "gid://shopify/Product/10";
     destination := "cart"; scans := 4; createdAt := 102 |}.

(** A record whose destination is neither of the two kinds. *)
Definition odd_kind_code : QRCode :=
  {| id := 4; title := "Odd"; shop := "demo.myshopify.com";
     productId := "gid://shopify/Product/10"; productHandle := "mug";
     productVariantId := "gid://shopify/ProductVariant/77";
     destination := "checkout"; scans := 0; createdAt := 103 |}.

Definition demo_world : World :=
  {| table := [mug_product_code; broken_cart_code; mug_cart_code; other_shop_code;
               orphan_code];
     next_id := 8; clock := 200; calls := [] |}.

(** A table that holds the record with the line feed. *)
Definition line_feed_world : World :=
  {| table := [mug_product_code; line_feed_code];
     next_id := 11; clock := 300; calls := [] |}.

(** * Properties *)

(** ** Strings *)

#[local] Arguments String.append : simpl nomatch.

Lemma append_assoc (a b c : string) : (a +:+ b) +:+ c = a +:+ b +:+ c.
Proof. induction a as [|x a IH]; simpl; [reflexivity | now rewrite IH]. Qed.

Lemma append_empty_r (a : string) : a +:+ "" = a.
Proof. induction a as [|x a IH]; simpl; [reflexivity | now rewrite IH]. Qed.

Lemma strip_literal_append (p s : string) : strip_literal p (p +:+ s) = Some s.
Proof.
  induction p as [|a p IH]; simpl; [reflexivity|].
  now rewrite Ascii.eqb_refl.
Qed.

Lemma strip_literal_Some (p s rest : string) :
  strip_literal p s = Some rest → s = p +:+ rest.
Proof.
  revert s; induction p as [|a p IH]; intros s; simpl.
  - now intros [= ->].
  - destruct s as [|b s]; [discriminate|].
    destruct (Ascii.eqb_spec a b) as [->|]; [|discriminate].
    intros H; now rewrite (IH _ H).
Qed.

Lemma take_digits_all (D post : string) :
  all_digits D = true → take_digits (D +:+ post) = D +:+ take_digits post.
Proof.
  induction D as [|c D IH]; simpl; [reflexivity|].
  intros [Hc HD]%andb_prop. rewrite Hc. now rewrite IH.
Qed.

Lemma take_digits_are_digits (s : string) : all_digits (take_digits s) = true.
Proof.
  induction s as [|c s IH]; simpl; [reflexivity|].
  destruct (is_digit c) eqn:Hc; simpl; [now rewrite Hc | reflexivity].
Qed.

Lemma take_digits_prefix (s : string) : ∃ post, s = take_digits s +:+ post.
Proof.
  induction s as [|c s [post IH]]; simpl; [now exists ""|].
  destruct (is_digit c).
  - exists post. simpl. now rewrite <- IH.
  - now exists (String c s).
Qed.

(** ** The regular expression *)

Lemma match_here_literal (D post : string) :
  D ≠ "" → all_digits D = true →
  ∃ d, match_here (variant_literal +:+ D +:+ post) = Some d.
Proof.
  intros HD Hall. unfold match_here. rewrite strip_literal_append.
  rewrite (take_digits_all _ _ Hall).
  destruct D as [|c D]; [congruence|]. simpl. eauto.
Qed.

Lemma match_here_exact (D : string) :
  D ≠ "" → all_digits D = true → match_here (variant_literal +:+ D) = Some D.
Proof.
  intros HD Hall. unfold match_here. rewrite strip_literal_append.
  rewrite <- (append_empty_r D) at 1. rewrite (take_digits_all _ _ Hall).
  simpl. rewrite append_empty_r. destruct D; congruence.
Qed.

Lemma match_here_sound (s d : string) :
  match_here s = Some d →
  ∃ post, s = variant_literal +:+ d +:+ post ∧ d ≠ "" ∧ all_digits d = true.
Proof.
  unfold match_here. destruct (strip_literal variant_literal s) as [rest|] eqn:Hs;
    [|discriminate].
  apply strip_literal_Some in Hs.
  destruct (take_digits_prefix rest) as [post Hpost].
  pose proof (take_digits_are_digits rest) as Hall.
  destruct (take_digits rest) as [|c t] eqn:Ht; [discriminate|].
  intros [= <-]. exists post. rewrite <- Hpost. now split.
Qed.

Lemma regex_exec_unfold (s : string) :
  regex_exec s =
  match match_here s with
  | Some d => Some d
  | None => match s with "" => None | String _ t => regex_exec t end
  end.
Proof. destruct s; reflexivity. Qed.

(** [exec] finds a match whenever the text contains one. *)
Lemma regex_exec_complete (s : string) :
  matches_variant_pattern s → is_Some (regex_exec s).
Proof.
  intros (pre & D & post & -> & HD & Hall).
  induction pre as [|c pre IH].
  - destruct (match_here_literal D post HD Hall) as [d Hd].
    change ("" +:+ variant_literal +:+ D +:+ post)
      with (variant_literal +:+ D +:+ post).
    rewrite regex_exec_unfold, Hd. eauto.
  - change (String c pre +:+ variant_literal +:+ D +:+ post)
      with (String c (pre +:+ variant_literal +:+ D +:+ post)).
    rewrite regex_exec_unfold.
    destruct (match_here _); eauto.
Qed.

(** What [exec] returns is a run of digits that follows the literal. *)
Lemma regex_exec_sound (s d : string) :
  regex_exec s = Some d →
  ∃ pre post, s = pre +:+ variant_literal +:+ d +:+ post ∧ d ≠ "" ∧ all_digits d = true.
Proof.
  induction s as [|c s IH].
  - simpl. discriminate.
  - rewrite regex_exec_unfold.
    destruct (match_here (String c s)) as [d'|] eqn:Hm.
    + intros [= ->]. apply match_here_sound in Hm as (post & -> & ? & ?).
      now exists "", post.
    + intros (pre & post & -> & ? & ?)%IH. now exists (String c pre), post.
Qed.

Lemma regex_exec_None (s : string) :
  regex_exec s = None ↔ ¬ matches_variant_pattern s.
Proof.
  split.
  - intros Hn Hm. apply regex_exec_complete in Hm as [d Hd]. congruence.
  - intros Hn. destruct (regex_exec s) as [d|] eqn:Hd; [|reflexivity].
    exfalso. apply Hn. apply regex_exec_sound in Hd as (pre & post & -> & ? & ?).
    now exists pre, d, post.
Qed.

(** *** A match that starts inside a prefix in which the pattern does not
    match cannot reach into the literal that follows: the literal has [g]
    at its first place only. *)

Lemma strip_literal_app_cases (p u v rest : string) :
  strip_literal p (u +:+ v) = Some rest →
  (∃ ru, strip_literal p u = Some ru ∧ rest = ru +:+ v) ∨
  (∃ p2, p = u +:+ p2 ∧ p2 ≠ "" ∧ strip_literal p2 v = Some rest).
Proof.
  revert u; induction p as [|a p IH]; intros u.
  - simpl. intros [= <-]. left. now exists u.
  - destruct u as [|b u].
    + intros H. right. now exists (String a p).
    + simpl. destruct (Ascii.eqb_spec a b) as [->|]; [|discriminate].
      intros [(ru & ? & ?)|(p2 & -> & ? & ?)]%IH; [left|right]; eauto.
Qed.

Lemma occurs_middle (c : ascii) (u v : string) : occurs c (u +:+ String c v) = true.
Proof.
  induction u as [|x u IH]; simpl.
  - now rewrite Ascii.eqb_refl.
  - rewrite IH. apply orb_true_r.
Qed.

Lemma match_here_skip (u D : string) :
  u ≠ "" → match_here u = None →
  match_here (u +:+ variant_literal +:+ D) = None.
Proof.
  intros Hu Hn. unfold match_here in *.
  destruct (strip_literal variant_literal (u +:+ variant_literal +:+ D))
    as [rest|] eqn:Hs; [|reflexivity].
  apply strip_literal_app_cases in Hs as [(ru & Hru & ->)|(p2 & Hp & Hp2 & Hs)].
  - rewrite Hru in Hn. destruct ru as [|c ru]; [reflexivity|].
    simpl in *. destruct (is_digit c); [discriminate | reflexivity].
  - exfalso. destruct p2 as [|x p2]; [congruence|].
    destruct u as [|c u]; [congruence|].
    simpl in Hs. destruct (Ascii.eqb_spec x "g") as [->|]; [|discriminate].
    injection Hp as _ Htail.
    apply (f_equal (occurs "g")) in Htail.
    rewrite occurs_middle in Htail. vm_compute in Htail. discriminate.
Qed.

(** In a reference that ends with the literal and digits [D], after a prefix
    in which the pattern does not match, [exec] captures exactly [D]. *)
Lemma regex_exec_after_prefix (pre D : string) :
  regex_exec pre = None → D ≠ "" → all_digits D = true →
  regex_exec (pre +:+ variant_literal +:+ D) = Some D.
Proof.
  intros Hpre HD Hall. induction pre as [|c pre IH].
  - change ("" +:+ variant_literal +:+ D) with (variant_literal +:+ D).
    now rewrite regex_exec_unfold, match_here_exact.
  - rewrite regex_exec_unfold in Hpre.
    destruct (match_here (String c pre)) eqn:Hm; [discriminate|].
    rewrite regex_exec_unfold, match_here_skip by (congruence || assumption).
    simpl. now apply IH.
Qed.

(** ** The pattern: leftmost match, longest run of digits *)

Lemma take_digits_stop (D post : string) :
  all_digits D = true → starts_with_digit post = false →
  take_digits (D +:+ post) = D.
Proof.
  intros Hall Hpost. rewrite (take_digits_all _ _ Hall).
  destruct post as [|c post]; simpl in *; [apply append_empty_r|].
  rewrite Hpost. apply append_empty_r.
Qed.

Lemma take_digits_split (s : string) :
  ∃ post, s = take_digits s +:+ post ∧ starts_with_digit post = false.
Proof.
  induction s as [|c s (post & IH & Hpost)]; simpl; [now exists ""|].
  destruct (is_digit c) eqn:Hc.
  - exists post. simpl. now rewrite <- IH.
  - exists (String c s). simpl. now rewrite Hc.
Qed.

Lemma match_here_greedy (s d : string) :
  match_here s = Some d →
  ∃ post, s = variant_literal +:+ d +:+ post ∧ d ≠ "" ∧ all_digits d = true ∧
          starts_with_digit post = false.
Proof.
  unfold match_here. destruct (strip_literal variant_literal s) as [rest|] eqn:Hs;
    [|discriminate].
  apply strip_literal_Some in Hs.
  destruct (take_digits_split rest) as (post & Hrest & Hpost).
  pose proof (take_digits_are_digits rest) as Hall.
  destruct (take_digits rest) as [|c t] eqn:Ht; [discriminate|].
  intros [= <-]. exists post. rewrite <- Hrest. now split_and!.
Qed.

Lemma match_here_found (D post : string) :
  D ≠ "" → all_digits D = true → starts_with_digit post = false →
  match_here (variant_literal +:+ D +:+ post) = Some D.
Proof.
  intros HD Hall Hpost. unfold match_here. rewrite strip_literal_append.
  rewrite take_digits_stop by assumption. destruct D; congruence.
Qed.

Lemma strip_literal_extend (p u v r : string) :
  strip_literal p u = Some r → strip_literal p (u +:+ v) = Some (r +:+ v).
Proof.
  revert u; induction p as [|a p IH]; intros u; simpl.
  - now intros [= ->].
  - destruct u as [|b u]; [discriminate|]. simpl.
    destruct (Ascii.eqb a b); [apply IH | discriminate].
Qed.

Lemma match_here_extend (u v : string) :
  is_Some (match_here u) → is_Some (match_here (u +:+ v)).
Proof.
  unfold match_here. destruct (strip_literal variant_literal u) as [r|] eqn:Hs;
    [|now intros [? [=]]].
  rewrite (strip_literal_extend _ _ v _ Hs).
  destruct r as [|c r]; simpl; [now intros [? [=]]|].
  destruct (is_digit c); simpl; [eauto | now intros [? [=]]].
Qed.

Lemma regex_exec_cons_None (c : ascii) (s : string) :
  match_here (String c s) = None → regex_exec s = None →
  regex_exec (String c s) = None.
Proof. intros Hm Hs. now rewrite regex_exec_unfold, Hm. Qed.

Lemma regex_exec_first (s d : string) :
  regex_exec s = Some d →
  ∃ pre post, s = pre +:+ variant_literal +:+ d +:+ post ∧ d ≠ "" ∧
    all_digits d = true ∧ ¬ matches_variant_pattern pre ∧
    starts_with_digit post = false.
Proof.
  induction s as [|c s IH].
  - discriminate.
  - rewrite regex_exec_unfold.
    destruct (match_here (String c s)) as [d'|] eqn:Hm.
    + intros [= ->]. apply match_here_greedy in Hm as (post & -> & ? & ? & ?).
      exists "", post. split_and!; try done. now apply regex_exec_None.
    + intros (pre & post & -> & ? & ? & Hpre & ?)%IH.
      exists (String c pre), post. split_and!; try done.
      apply regex_exec_None. apply regex_exec_cons_None; [|now apply regex_exec_None].
      destruct (match_here (String c pre)) as [x|] eqn:Hx; [|reflexivity].
      destruct (match_here_extend (String c pre) (variant_literal +:+ d +:+ post))
        as [y Hy]; [eauto|].
      change (String c pre +:+ variant_literal +:+ d +:+ post)
        with (String c (pre +:+ variant_literal +:+ d +:+ post)) in Hy.
      congruence.
Qed.

Lemma regex_exec_decomposed (pre D post : string) :
  ¬ matches_variant_pattern pre → D ≠ "" → all_digits D = true →
  starts_with_digit post = false →
  regex_exec (pre +:+ variant_literal +:+ D +:+ post) = Some D.
Proof.
  intros Hpre%regex_exec_None HD Hall Hpost. induction pre as [|c pre IH].
  - change ("" +:+ variant_literal +:+ D +:+ post)
      with (variant_literal +:+ D +:+ post).
    now rewrite regex_exec_unfold, match_here_found.
  - rewrite regex_exec_unfold in Hpre.
    destruct (match_here (String c pre)) eqn:Hm; [discriminate|].
    rewrite regex_exec_unfold.
    rewrite (match_here_skip (String c pre) (D +:+ post)) by (congruence || assumption).
    simpl. now apply IH.
Qed.

(** ** The destination resolver *)

(** C1: for every record whose destination kind is [product], whatever the
    shop and the product handle, [getDestinationUrl] returns exactly
    [https://{shop}/products/{productHandle}].  It is a function of the
    record alone: it runs in no world and calls no collaborator. *)
Theorem getDestinationUrl_product (q : QRCode) :
  destination q = "product" →
  getDestinationUrl q = OK ("https://" +:+ shop q +:+ "/products/" +:+ productHandle q).
Proof.
  intros H. unfold getDestinationUrl. now rewrite H.
Qed.

Lemma getDestinationUrl_product_witness :
  getDestinationUrl mug_product_code = OK "https://demo.myshopify.com/products/mug".
Proof.
  apply (getDestinationUrl_product mug_product_code). reflexivity.
Defined.

(** C2: for every record whose destination kind is [cart] and whose variant
    reference contains the [gid://shopify/ProductVariant/] literal followed by
    the digits [D], [getDestinationUrl] returns exactly
    [https://{shop}/cart/{D}:1].  The literal may stand anywhere in the
    reference: [pre] is the text before it, in which the pattern does not
    already match, and [post] is what follows the run of digits [D]; with an
    empty [post] the digits are the end of the reference, and with both
    empty the reference is the literal and the digits. *)
Theorem getDestinationUrl_cart (q : QRCode) (pre D post : string) :
  destination q = "cart" →
  productVariantId q = pre +:+ variant_literal +:+ D +:+ post →
  ¬ matches_variant_pattern pre →
  D ≠ "" →
  all_digits D = true →
  starts_with_digit post = false →
  getDestinationUrl q = OK ("https://" +:+ shop q +:+ "/cart/" +:+ D +:+ ":1").
Proof.
  intros Hk Hv Hpre HD Hall Hpost. unfold getDestinationUrl. rewrite Hk, Hv.
  now rewrite regex_exec_decomposed.
Qed.

Lemma getDestinationUrl_cart_witness :
  getDestinationUrl noisy_cart_code = OK "https://demo.myshopify.com/cart/420:1" ∧
  getDestinationUrl mug_cart_code = OK "https://demo.myshopify.com/cart/12345:1".
Proof.
  split.
  - apply (getDestinationUrl_cart noisy_cart_code "see " "420" "?x");
      [reflexivity | reflexivity | | discriminate | reflexivity | reflexivity].
    apply regex_exec_None. reflexivity.
  - apply (getDestinationUrl_cart mug_cart_code "" "12345" "");
      [reflexivity | reflexivity | | discriminate | reflexivity | reflexivity].
    apply regex_exec_None. reflexivity.
Defined.

(** The same holds when the literal and its digits come after other text in
    which the pattern does not already match. *)
Lemma getDestinationUrl_cart_embedded (q : QRCode) (pre D : string) :
  destination q ≠ "product" →
  productVariantId q = pre +:+ variant_literal +:+ D →
  ¬ matches_variant_pattern pre →
  D ≠ "" →
  all_digits D = true →
  getDestinationUrl q = OK (cart_url (shop q) D).
Proof.
  intros Hk Hv Hpre%regex_exec_None HD Hall. unfold getDestinationUrl.
  apply String.eqb_neq in Hk. rewrite Hk, Hv.
  now rewrite regex_exec_after_prefix.
Qed.

(** The match is the leftmost one and the group is greedy. *)
Example regex_exec_leftmost :
  regex_exec "gid://shopify/ProductVariant/1/gid://shopify/ProductVariant/2" = Some "1" ∧
  regex_exec "see gid://shopify/ProductVariant/420?x" = Some "420" ∧
  regex_exec "gid://shopify/ProductVariant/" = None.
Proof. repeat split. Qed.

(** C3: for every record whose destination kind is [cart] and whose variant
    reference does not contain the pattern, [getDestinationUrl] fails with
    the invariant error; it returns no URL. *)
Theorem getDestinationUrl_cart_unrecognized (q : QRCode) :
  destination q = "cart" →
  ¬ matches_variant_pattern (productVariantId q) →
  getDestinationUrl q = Err (InvariantFailed "Unrecognized product variant ID").
Proof.
  intros Hk Hn%regex_exec_None. unfold getDestinationUrl. now rewrite Hk, Hn.
Qed.

Lemma getDestinationUrl_cart_unrecognized_witness :
  getDestinationUrl broken_cart_code = Err (InvariantFailed "Unrecognized product variant ID").
Proof.
  apply (getDestinationUrl_cart_unrecognized broken_cart_code); [reflexivity|].
  apply regex_exec_None. reflexivity.
Defined.

(** C10: the resolver never tests for [cart].  For every record whose
    destination is anything but the exact string [product] it takes the cart
    branch: it parses the variant reference and either returns the cart URL
    for the digits found there or fails with the invariant error. *)
Theorem getDestinationUrl_not_product (q : QRCode) :
  destination q ≠ "product" →
  (∃ D, regex_exec (productVariantId q) = Some D ∧ D ≠ "" ∧ all_digits D = true ∧
        getDestinationUrl q = OK ("https://" +:+ shop q +:+ "/cart/" +:+ D +:+ ":1")) ∨
  (¬ matches_variant_pattern (productVariantId q) ∧
   getDestinationUrl q = Err (InvariantFailed "Unrecognized product variant ID")).
Proof.
  intros Hk%String.eqb_neq. unfold getDestinationUrl. rewrite Hk.
  destruct (regex_exec (productVariantId q)) as [D|] eqn:Hx.
  - left. exists D. destruct (regex_exec_sound _ _ Hx) as (? & ? & _ & ? & ?).
    now repeat split.
  - right. split; [now apply regex_exec_None | reflexivity].
Qed.

Lemma getDestinationUrl_not_product_witness :
  getDestinationUrl odd_kind_code = OK "https://demo.myshopify.com/cart/77:1" ∧
  getDestinationUrl blank_kind_code = Err (InvariantFailed "Unrecognized product variant ID").
Proof.
  split.
  - destruct (getDestinationUrl_not_product odd_kind_code) as [(D & HD & _ & _ & ->)|[_ H]].
    + discriminate.
    + injection HD as <-. reflexivity.
    + discriminate H.
  - destruct (getDestinationUrl_not_product blank_kind_code) as [(D & HD & _)|[_ H]].
    + discriminate.
    + discriminate HD.
    + exact H.
Defined.

(** ** The validator *)

Lemma validateQRCode_in_order (data : gmap string string) :
  validateQRCode data = validate_in_order required_fields data.
Proof. reflexivity. Qed.

Lemma check_field_comm (data errors : gmap string string) (f g : string * string) :
  f.1 ≠ g.1 →
  check_field data (check_field data errors f) g
  = check_field data (check_field data errors g) f.
Proof.
  intros Hne. unfold check_field.
  destruct (truthy (data !! f.1)), (truthy (data !! g.1)); try reflexivity.
  now apply insert_insert_ne.
Qed.

(** Checks on different fields can run in any order. *)
Lemma foldl_check_field_perm (data : gmap string string) (l1 l2 : list (string * string)) :
  l1 ≡ₚ l2 → NoDup l1.*1 →
  ∀ errors, foldl (check_field data) errors l1 = foldl (check_field data) errors l2.
Proof.
  induction 1 as [|x l1 l2 Hp IH|x y l|l1 l2 l3 H12 IH12 H23 IH23]; intros Hnd errors.
  - reflexivity.
  - simpl. apply IH. now apply NoDup_cons_1_2 in Hnd.
  - simpl. f_equal. apply check_field_comm.
    rewrite !fmap_cons in Hnd. apply NoDup_cons in Hnd as [Hy _].
    intros Heq. apply Hy. rewrite Heq. left.
  - rewrite IH12 by assumption. apply IH23. now rewrite <- H12.
Qed.

Lemma required_fields_NoDup : NoDup required_fields.*1.
Proof. apply (bool_decide_unpack (NoDup required_fields.*1)). vm_compute. exact I. Qed.

Lemma missing_fields_NoDup (data : gmap string string) :
  NoDup (missing_fields data).*1.
Proof.
  eapply sublist_NoDup; [apply required_fields_NoDup|].
  apply fmap_sublist, sublist_filter.
Qed.

(** The result of the validator in terms of the missing fields. *)
Lemma validateQRCode_eq (data : gmap string string) :
  validateQRCode data =
  match missing_fields data with
  | [] => None
  | _ :: _ => Some (list_to_map (missing_fields data))
  end.
Proof.
  unfold validateQRCode, missing_fields, required_fields.
  destruct (truthy (data !! "title")) eqn:Ht, (truthy (data !! "productId")) eqn:Hp,
    (truthy (data !! "destination")) eqn:Hd;
    cbn -[size insert]; rewrite ?Ht, ?Hp, ?Hd; cbn -[size insert];
    rewrite ?map_size_insert_None by (by simplify_map_eq);
    rewrite ?map_size_empty; cbn -[insert]; reflexivity.
Qed.

Lemma missing_fields_nil (data : gmap string string) :
  missing_fields data = [] ↔
  truthy (data !! "title") = true ∧ truthy (data !! "productId") = true ∧
  truthy (data !! "destination") = true.
Proof.
  unfold missing_fields, required_fields.
  destruct (truthy (data !! "title")) eqn:Ht, (truthy (data !! "productId")) eqn:Hp,
    (truthy (data !! "destination")) eqn:Hd;
    cbn; rewrite ?Ht, ?Hp, ?Hd; cbn; intuition discriminate.
Qed.

(** C4: [validateQRCode] returns no errors exactly when title, product
    reference and destination kind are all non-empty.  Otherwise it returns
    a mapping that has one entry per missing field and no other entry (its
    size is the number of missing fields), and the result is the same in
    whatever order the three checks run. *)
Theorem validateQRCode_missing_fields (data : gmap string string) :
  (validateQRCode data = None ↔
     truthy (data !! "title") = true ∧ truthy (data !! "productId") = true ∧
     truthy (data !! "destination") = true) ∧
  (validateQRCode data ≠ None →
     validateQRCode data = Some (list_to_map (missing_fields data))) ∧
  (∀ errors : gmap string string, validateQRCode data = Some errors →
     size errors = length (missing_fields data) ∧
     ∀ field message, errors !! field = Some message ↔
       (field, message) ∈ required_fields ∧ truthy (data !! field) = false) ∧
  (∀ checks, checks ≡ₚ required_fields →
     validate_in_order checks data = validateQRCode data).
Proof.
  split; [|split; [|split]].
  - rewrite validateQRCode_eq, <- missing_fields_nil.
    destruct (missing_fields data); split; congruence.
  - rewrite validateQRCode_eq. destruct (missing_fields data); congruence.
  - intros errors. rewrite validateQRCode_eq.
    pose proof (missing_fields_NoDup data) as Hnd.
    destruct (missing_fields data) as [|f fs] eqn:Hm at 1; [discriminate|].
    intros [= <-]. split.
    + now apply map_size_list_to_map.
    + intros field message. rewrite <- elem_of_list_to_map by assumption.
      unfold missing_fields. rewrite list_elem_of_filter.
      simpl. tauto.
  - intros checks Hp. rewrite validateQRCode_in_order. unfold validate_in_order.
    rewrite (foldl_check_field_perm data required_fields checks);
      [reflexivity | now symmetry | apply required_fields_NoDup].
Qed.

(** The example of the specification: a draft without title and destination
    gets exactly the two entries. *)
Example validateQRCode_two_missing :
  validateQRCode {[ "productId" := "gid://shopify/Product/10" ]}
  = Some {[ "title" := "Title is required";
            "destination" := "Destination is required" ]} ∧
  size ({[ "title" := "Title is required";
           "destination" := "Destination is required" ]} : gmap string string) = 2%nat.
Proof. split; reflexivity. Qed.

Example validateQRCode_complete :
  validateQRCode {[ "title" := "Mug"; "productId" := "gid://shopify/Product/10";
                    "destination" := "cart" ]} = None.
Proof. reflexivity. Qed.

(** ** Effects *)

Lemma log_calls_nil (w : World) : log_calls [] w = w.
Proof. destruct w. unfold log_calls. simpl. now rewrite app_nil_r. Qed.

Lemma log_calls_app (cs1 cs2 : list call) (w : World) :
  log_calls cs2 (log_calls cs1 w) = log_calls (cs1 ++ cs2) w.
Proof. unfold log_calls. simpl. now rewrite app_assoc. Qed.

Lemma log_call_log_calls (c : call) (w : World) : log_call c w = log_calls [c] w.
Proof. reflexivity. Qed.

Lemma settle_all_OK {A : Type} (rs : list (result A)) (vs : list A) :
  settle_all rs = OK vs ↔ rs = OK <$> vs.
Proof.
  revert vs; induction rs as [|[a|e] rs IH]; intros vs; simpl.
  - split; [intros [= <-]; reflexivity | destruct vs; [reflexivity | discriminate]].
  - destruct (settle_all rs) as [l|e] eqn:Hs.
    + split.
      * intros [= <-]. simpl. f_equal. now apply IH.
      * destruct vs as [|v vs]; [discriminate|]. simpl. intros [= -> Hrs].
        f_equal. f_equal. apply IH in Hrs. congruence.
    + split; [discriminate|].
      destruct vs as [|v vs]; [discriminate|]. simpl. intros [= -> Hrs].
      apply IH in Hrs. discriminate.
  - split; [discriminate | destruct vs; discriminate].
Qed.

Lemma settle_all_is_OK {A : Type} (rs : list (result A)) :
  Forall (λ r, is_OK r = true) rs → is_OK (settle_all rs) = true.
Proof.
  induction 1 as [|[a|e] rs Hr Hrs IH]; simpl; [reflexivity| |discriminate].
  destruct (settle_all rs); [reflexivity | discriminate].
Qed.

(** ** The image generator *)

(** C8, as the code has it: for every id, [getQRCodeImage] builds the link
    [/qrcodes/<id>/scan] under the configured origin, hands it to the encoder
    once, and returns what the encoder returns: the payload, or its failure
    unchanged. *)
Theorem getQRCodeImage_encodes_scan_link (W : Collaborators) (n : Z) (w : World) :
  let href := app_origin W +:+ "/qrcodes/" +:+ string_of_Z n +:+ "/scan" in
  fst (getQRCodeImage W n w) = toDataURL W href ∧
  calls (snd (getQRCodeImage W n w)) = calls w ++ [EncodeCall href] ∧
  table (snd (getQRCodeImage W n w)) = table w.
Proof. repeat split. Qed.

Example string_of_Z_samples :
  string_of_Z 42 = "42" ∧ string_of_Z 0 = "0" ∧ string_of_Z 1007 = "1007".
Proof. repeat split. Qed.

Example getQRCodeImage_42 :
  getQRCodeImage demo 42 demo_world
  = (OK "data:image/png;base64,https://app.example.com/qrcodes/42/scan",
     log_call (EncodeCall "https://app.example.com/qrcodes/42/scan") demo_world).
Proof. reflexivity. Qed.

(** C8 as stated fails: the link that is encoded for id 5 is not
    [/5/scan] under the origin, it carries the [/qrcodes] segment. *)
Lemma getQRCodeImage_path_counterexample :
  ¬ (fst (getQRCodeImage demo 5 demo_world)
       = toDataURL demo (app_origin demo +:+ "/" +:+ string_of_Z 5 +:+ "/scan") ∧
     calls (snd (getQRCodeImage demo 5 demo_world))
       = calls demo_world ++ [EncodeCall (app_origin demo +:+ "/" +:+ string_of_Z 5 +:+ "/scan")]).
Proof. intros [H _]. vm_compute in H. discriminate H. Qed.

(** ** Enrichment *)

Lemma supplementQRCode_run (W : Collaborators) (q : QRCode) (w : World) :
  supplementQRCode W q w = (supplement_outcome W q, log_calls (supplement_calls W q) w).
Proof.
  unfold supplementQRCode, supplement_outcome, supplement_calls, mbind, M_bind,
    started, getQRCodeImage, query_product, lift, mret, M_ret.
  rewrite !log_call_log_calls, log_calls_app. simpl.
  destruct (graphql W (productId q)); [|reflexivity].
  destruct (getDestinationUrl q); [|reflexivity].
  destruct (toDataURL W (scan_href W (id q))); reflexivity.
Qed.

(** C5, as the code has it: for every record whose product lookup returns
    "not found", whose destination resolves and whose image is encoded,
    [supplementQRCode] returns the view with the deleted flag set, no product
    title, image or alt text, and the record, destination URL and image in
    place; the missing product raises no error. *)
Theorem supplementQRCode_product_missing
    (W : Collaborators) (q : QRCode) (location payload : string) (w : World) :
  graphql W (productId q) = OK None →
  getDestinationUrl q = OK location →
  toDataURL W (app_origin W +:+ "/qrcodes/" +:+ string_of_Z (id q) +:+ "/scan") = OK payload →
  supplementQRCode W q w =
    (OK {| qrCode_fields := q; productDeleted := true; productTitle := None;
           productImage := None; productAlt := None;
           destinationUrl := location; image := payload |},
     log_calls (supplement_calls W q) w).
Proof.
  intros Hg Hd Hi. rewrite supplementQRCode_run. unfold supplement_outcome, scan_href.
  now rewrite Hg, Hd, Hi.
Qed.

Lemma supplementQRCode_product_missing_witness :
  fst (supplementQRCode demo orphan_code demo_world) =
    OK {| qrCode_fields := orphan_code; productDeleted := true; productTitle := None;
          productImage := None; productAlt := None;
          destinationUrl := "https://demo.myshopify.com/products/gone";
          image := "data:image/png;base64,https://app.example.com/qrcodes/6/scan" |}.
Proof.
  rewrite (supplementQRCode_product_missing demo orphan_code
             "https://demo.myshopify.com/products/gone"
             "data:image/png;base64,https://app.example.com/qrcodes/6/scan");
    reflexivity.
Defined.

(** C5 as stated fails: the product of this cart record is not found and
    its variant reference is not recognised; enrichment throws and no view
    is produced. *)
Lemma supplementQRCode_missing_counterexample :
  graphql demo (productId orphan_cart_code) = OK None ∧
  fst (supplementQRCode demo orphan_cart_code demo_world)
    = Err (InvariantFailed "Unrecognized product variant ID").
Proof. split; reflexivity. Qed.

(** With the product found, the view carries its title and first image. *)
Example supplementQRCode_found :
  fst (supplementQRCode demo mug_cart_code demo_world) =
    OK {| qrCode_fields := mug_cart_code; productDeleted := false;
          productTitle := Some "Mug";
          productImage := Some "https://cdn.example.com/mug.png";
          productAlt := Some "A mug";
          destinationUrl := "https://demo.myshopify.com/cart/12345:1";
          image := "data:image/png;base64,https://app.example.com/qrcodes/2/scan" |}.
Proof. reflexivity. Qed.

(** With the product not found, enrichment can only fail where the
    destination does not resolve or the image is not encoded. *)
Lemma supplementQRCode_missing_fails_downstream
    (W : Collaborators) (q : QRCode) (w : World) (e : error) :
  graphql W (productId q) = OK None →
  fst (supplementQRCode W q w) = Err e →
  getDestinationUrl q = Err e ∨
  toDataURL W (app_origin W +:+ "/qrcodes/" +:+ string_of_Z (id q) +:+ "/scan") = Err e.
Proof.
  intros Hg. rewrite supplementQRCode_run. unfold supplement_outcome, scan_href.
  rewrite Hg. simpl.
  destruct (getDestinationUrl q); [|intros [= ->]; now left].
  destruct (toDataURL W _); [discriminate | intros [= ->]; now right].
Qed.

(** [getQRCode]: an absent record gives [null] without any remote call, a
    present one is enriched. *)
Lemma getQRCode_absent (W : Collaborators) (n : option Z) (w : World) :
  (n ≫= λ i, List.find (has_id i) (table w)) = None →
  getQRCode W n w = (OK None, w).
Proof.
  intros Hf. unfold getQRCode, mbind at 1, M_bind, db_findFirst. now rewrite Hf.
Qed.

Lemma getQRCode_present (W : Collaborators) (n : Z) (r : QRCode) (w : World) :
  List.find (has_id n) (table w) = Some r →
  getQRCode W (Some n) w =
    (match supplement_outcome W r with OK v => OK (Some v) | Err e => Err e end,
     log_calls (supplement_calls W r) w).
Proof.
  intros Hf. unfold getQRCode, mbind, M_bind, db_findFirst. simpl. rewrite Hf.
  rewrite supplementQRCode_run. now destruct (supplement_outcome W r).
Qed.

Lemma start_each_supplement (W : Collaborators) (rows : list QRCode) (w : World) :
  start_each (supplementQRCode W) rows w
  = (OK (supplement_outcome W <$> rows), log_calls (rows ≫= supplement_calls W) w).
Proof.
  revert w; induction rows as [|r rows IH]; intros w.
  - simpl. now rewrite log_calls_nil.
  - simpl. unfold mbind at 1, M_bind at 1, started. rewrite supplementQRCode_run.
    unfold mbind at 1, M_bind at 1. rewrite IH. unfold mret, M_ret.
    now rewrite log_calls_app.
Qed.

Lemma getQRCodes_run (W : Collaborators) (s : string) (w : World) :
  getQRCodes W s w
  = (settle_all (supplement_outcome W <$> rows_of_shop s (table w)),
     log_calls (rows_of_shop s (table w) ≫= supplement_calls W) w).
Proof.
  unfold getQRCodes, mbind at 1, M_bind at 1, db_findMany.
  destruct (rows_of_shop s (table w)) as [|r rows] eqn:Hrows.
  - simpl. now rewrite log_calls_nil.
  - change (length (r :: rows) =? 0)%nat with false. cbv iota.
    unfold promise_all_map, mbind, M_bind. rewrite start_each_supplement.
    reflexivity.
Qed.

Lemma by_id_desc_total : Total by_id_desc.
Proof. intros a b. unfold by_id_desc. lia. Qed.

Lemma by_id_desc_trans : Transitive by_id_desc.
Proof. intros a b c. unfold by_id_desc. lia. Qed.

Lemma rows_of_shop_elem (s : string) (t : list QRCode) (r : QRCode) :
  r ∈ rows_of_shop s t ↔ r ∈ t ∧ shop r = s.
Proof.
  unfold rows_of_shop. rewrite merge_sort_Permutation.
  rewrite !list_elem_of_In, filter_In. now rewrite String.eqb_eq.
Qed.

(** C6: [getQRCodes] takes the rows of the shop, all of them and no other,
    in descending order of id, and returns for each row, in that order, what
    [supplementQRCode] returns for that row alone; it succeeds whenever each
    enrichment does, and it writes nothing.  When the shop has no row the
    result is the empty list and the world is untouched: neither the product
    lookup nor the encoder is called. *)
Theorem getQRCodes_enriches_rows (W : Collaborators) (s : string) (w : World) :
  let rows := rows_of_shop s (table w) in
  (∀ r, r ∈ rows ↔ r ∈ table w ∧ shop r = s) ∧
  length rows = length (List.filter (λ r, String.eqb (shop r) s) (table w)) ∧
  StronglySorted (λ a b, id b ≤ id a) rows ∧
  (rows = [] → getQRCodes W s w = (OK [], w)) ∧
  (∀ views w', getQRCodes W s w = (OK views, w') →
     Forall2 (λ r v, ∀ w0, fst (supplementQRCode W r w0) = OK v) rows views) ∧
  ((∀ r, r ∈ rows → is_OK (fst (supplementQRCode W r w)) = true) →
     is_OK (fst (getQRCodes W s w)) = true) ∧
  table (snd (getQRCodes W s w)) = table w ∧
  calls (snd (getQRCodes W s w)) = calls w ++ (rows ≫= supplement_calls W).
Proof.
  intros rows. split_and!.
  - intros r. apply rows_of_shop_elem.
  - unfold rows, rows_of_shop. now rewrite merge_sort_Permutation.
  - apply (@StronglySorted_merge_sort _ by_id_desc _ by_id_desc_trans by_id_desc_total).
  - intros Hrows. rewrite getQRCodes_run. fold rows. rewrite Hrows. simpl.
    now rewrite log_calls_nil.
  - intros views w'. rewrite getQRCodes_run. fold rows. intros [= Hs _].
    apply settle_all_OK in Hs. revert views Hs.
    induction rows as [|r rows' IH]; intros [|v views]; try discriminate.
    + constructor.
    + rewrite !fmap_cons. intros [= Hr Hrest]. constructor; [|now apply IH].
      intros w0. now rewrite supplementQRCode_run.
  - intros Hall. rewrite getQRCodes_run. fold rows. simpl.
    apply settle_all_is_OK. apply Forall_fmap, Forall_forall. intros r Hr.
    specialize (Hall r Hr). now rewrite supplementQRCode_run in Hall.
  - now rewrite getQRCodes_run.
  - now rewrite getQRCodes_run.
Qed.

(** In the demo world one shop has a single row, one has none, and the
    third has a row whose enrichment throws, which fails the whole listing. *)
Example getQRCodes_demo :
  (∃ v, fst (getQRCodes demo "other.myshopify.com" demo_world) = OK [v] ∧
        qrCode_fields v = other_shop_code) ∧
  getQRCodes demo "nobody.myshopify.com" demo_world = (OK [], demo_world) ∧
  fst (getQRCodes demo "demo.myshopify.com" demo_world)
    = Err (InvariantFailed "Unrecognized product variant ID") ∧
  id <$> rows_of_shop "demo.myshopify.com" (table demo_world) = [6; 3; 2; 1].
Proof. split_and!; [eexists; split; reflexivity | reflexivity..]. Qed.


(** ** The scan handler *)

Lemma has_id_increment_scans (n m : Z) (x : QRCode) :
  has_id n (increment_scans m x) = has_id n x.
Proof. unfold increment_scans. now destruct (has_id m x). Qed.

Lemma find_increment_scans (n : Z) (t : list QRCode) :
  List.find (has_id n) (List.map (increment_scans n) t)
  = increment_scans n <$> List.find (has_id n) t.
Proof.
  induction t as [|x t IH]; simpl; [reflexivity|].
  rewrite has_id_increment_scans. now destruct (has_id n x).
Qed.

Lemma find_has_id (n : Z) (t : list QRCode) (r : QRCode) :
  List.find (has_id n) t = Some r → id r = n ∧ r ∈ t.
Proof.
  intros [Hin Hid]%find_some. split; [now apply Z.eqb_eq | now apply list_elem_of_In].
Qed.

Lemma find_has_id_None (n : Z) (t : list QRCode) :
  (∀ r, r ∈ t → id r ≠ n) → List.find (has_id n) t = None.
Proof.
  intros Hno. destruct (List.find (has_id n) t) as [r|] eqn:Hf; [|reflexivity].
  apply find_has_id in Hf as [Hid Hin]. now destruct (Hno r Hin).
Qed.

Lemma loader_run (W : Collaborators) (pid : option string) (w : World) :
  loader W pid w =
  if truthy pid then
    match js_Number W pid ≫= λ i, List.find (has_id i) (table w) with
    | Some r =>
        (match getDestinationUrl r with
         | OK location => redirect W location
         | Err e => Err e
         end,
         with_table (List.map (increment_scans (id r)) (table w)) w)
    | None => (Err not_found, w)
    end
  else (Err not_found, w).
Proof.
  destruct pid as [[|c s]|]; try reflexivity.
  unfold loader, truthy_value, db_findFirst, db_increment_scans, lift.
  unfold mbind at 1 2 3 4 5, M_bind, mret, M_ret. simpl.
  destruct (Number W (String c s)) as [n|]; simpl; [|reflexivity].
  destruct (List.find (has_id n) (table w)) as [r|]; simpl; [|reflexivity].
  now destruct (getDestinationUrl r).
Qed.

(** C7, as the code has it.  A request without an id, or with an id that no
    row carries, fails with the not-found error and leaves the world as it
    was.  For a request whose id names a row the scan counter of that row
    goes up by exactly one and nothing else changes; then the handler
    redirects to the resolved destination when the record resolves and the
    redirect response accepts the location.  When the record does not
    resolve it fails with the resolver's error, and when the location is
    refused as a header value it fails with that error, in both cases with
    the increment already made. *)
Theorem loader_scan (W : Collaborators) (pid : option string) (w : World) :
  (truthy pid = false → loader W pid w = (Err not_found, w)) ∧
  ((∀ r, r ∈ table w → js_Number W pid ≠ Some (id r)) →
     loader W pid w = (Err not_found, w)) ∧
  (∀ n r, truthy pid = true → js_Number W pid = Some n →
     List.find (has_id n) (table w) = Some r →
     let w' := with_table (List.map (increment_scans n) (table w)) w in
     snd (loader W pid w) = w' ∧
     List.find (has_id n) (table w') = Some (set_scans (scans r + 1) r) ∧
     (∀ x, id x ≠ n → increment_scans n x = x) ∧
     (∀ location, getDestinationUrl r = OK location →
        location_error W location = None →
        loader W pid w = (OK (Redirect location), w')) ∧
     (∀ location e, getDestinationUrl r = OK location →
        location_error W location = Some e →
        loader W pid w = (Err e, w')) ∧
     (∀ e, getDestinationUrl r = Err e → loader W pid w = (Err e, w'))).
Proof.
  split_and!.
  - intros Hp. rewrite loader_run. now rewrite Hp.
  - intros Hno. rewrite loader_run. destruct (truthy pid); [|reflexivity].
    destruct (js_Number W pid) as [n|]; [|reflexivity]. simpl.
    rewrite find_has_id_None; [reflexivity|].
    intros r Hr Hid. apply (Hno r Hr). now rewrite Hid.
  - intros n r Hp Hn Hf w'. pose proof (find_has_id _ _ _ Hf) as [Hid _].
    assert (Hrun : loader W pid w =
              (match getDestinationUrl r with
               | OK location => redirect W location | Err e => Err e end, w')).
    { rewrite loader_run, Hp, Hn. simpl. rewrite Hf. now rewrite Hid. }
    split_and!.
    + now rewrite Hrun.
    + unfold w'. simpl. rewrite find_increment_scans, Hf. simpl.
      unfold increment_scans, has_id. rewrite Hid, Z.eqb_refl. reflexivity.
    + intros x Hx. unfold increment_scans, has_id.
      now apply Z.eqb_neq in Hx as ->.
    + intros location Hd Hl. rewrite Hrun, Hd. unfold redirect. now rewrite Hl.
    + intros location e Hd Hl. rewrite Hrun, Hd. unfold redirect. now rewrite Hl.
    + intros e Hd. now rewrite Hrun, Hd.
Qed.

Lemma loader_scan_witness :
  loader demo None demo_world = (Err not_found, demo_world) ∧
  loader demo (Some "42") demo_world = (Err not_found, demo_world) ∧
  fst (loader demo (Some "2") demo_world)
    = OK (Redirect "https://demo.myshopify.com/cart/12345:1") ∧
  List.find (has_id 2) (table (snd (loader demo (Some "2") demo_world)))
    = Some (set_scans 8 mug_cart_code) ∧
  fst (loader demo (Some "10") line_feed_world)
    = Err (Rejected "Invalid character in header content [Location]") ∧
  List.find (has_id 10) (table (snd (loader demo (Some "10") line_feed_world)))
    = Some (set_scans 4 line_feed_code).
Proof.
  destruct (loader_scan demo None demo_world) as (Hmissing & _ & _).
  destruct (loader_scan demo (Some "42") demo_world) as (_ & Habsent & _).
  destruct (loader_scan demo (Some "2") demo_world) as (_ & _ & Hfound).
  destruct (Hfound 2 mug_cart_code eq_refl eq_refl eq_refl)
    as (Hw & Hcount & _ & Hredirect & _).
  destruct (loader_scan demo (Some "10") line_feed_world) as (_ & _ & Hfeed).
  destruct (Hfeed 10 line_feed_code eq_refl eq_refl eq_refl)
    as (Hw' & Hcount' & _ & _ & Hrefused & _).
  split_and!.
  - apply Hmissing. reflexivity.
  - apply Habsent. intros r Hr. vm_compute in Hr.
    repeat (apply elem_of_cons in Hr as [->|Hr]; [discriminate|]).
    now apply elem_of_nil in Hr.
  - rewrite (Hredirect "https://demo.myshopify.com/cart/12345:1" eq_refl eq_refl).
    reflexivity.
  - rewrite Hw. exact Hcount.
  - rewrite (Hrefused _ _ eq_refl eq_refl). reflexivity.
  - rewrite Hw'. exact Hcount'.
Defined.

(** C7 as stated fails: row 3 exists and the request carries its id, yet no
    redirect is issued; the handler throws after it has counted the scan. *)
Lemma loader_scan_counterexample :
  List.find (has_id 3) (table demo_world) = Some broken_cart_code ∧
  fst (loader demo (Some "3") demo_world)
    = Err (InvariantFailed "Unrecognized product variant ID") ∧
  scans <$> List.find (has_id 3) (table (snd (loader demo (Some "3") demo_world)))
    = Some (scans broken_cart_code + 1).
Proof. split_and!; reflexivity. Qed.

(** ** The form handler *)

Lemma validateQRCode_shop (shop_ : string) (form : gmap string string) :
  validateQRCode (<["shop" := shop_]> form) = validateQRCode form.
Proof. unfold validateQRCode. now rewrite !lookup_insert_ne by done. Qed.

Lemma truthy_Some (s : string) : s ≠ "" → truthy (Some s) = true.
Proof. now destruct s. Qed.

Lemma save_form_valid (shop_ t p v h d : string) :
  t ≠ "" → p ≠ "" → d ≠ "" →
  validateQRCode (<["shop" := shop_]> (save_form t p v h d)) = None.
Proof.
  intros Ht Hp Hd. rewrite validateQRCode_shop, validateQRCode_eq.
  replace (missing_fields (save_form t p v h d)) with (@nil (string * string));
    [reflexivity|].
  symmetry. apply missing_fields_nil. unfold save_form.
  split_and!; simplify_map_eq; now apply truthy_Some.
Qed.

Lemma save_form_all_writable (shop_ t p v h d : string) :
  all_writable (<["shop" := shop_]> (save_form t p v h d)) = true.
Proof.
  unfold all_writable, save_form, writable_columns. apply bool_decide_eq_true.
  rewrite !dom_insert_L, dom_singleton_L. simpl. set_solver.
Qed.

Lemma save_form_only_writable (shop_ t p v h d : string) :
  only_writable (<["shop" := shop_]> (save_form t p v h d)) = true.
Proof.
  pose proof (save_form_all_writable shop_ t p v h d) as H.
  unfold all_writable, only_writable in *. apply bool_decide_eq_true in H.
  apply bool_decide_eq_true. now rewrite H.
Qed.

Lemma save_form_columns (shop_ t p v h d : string) (r : QRCode) :
  replace_columns (<["shop" := shop_]> (save_form t p v h d)) r
  = {| id := id r; title := t; shop := shop_; productId := p; productHandle := h;
       productVariantId := v; destination := d; scans := scans r;
       createdAt := createdAt r |}.
Proof.
  unfold replace_columns, column, save_form. now simplify_map_eq.
Qed.

(** C9: what the form handler does with a submission.
    - With the [delete] discriminator it removes the row named by the route
      and redirects to the listing; the other fields are not looked at, so
      no validation runs.
    - A save with a missing field returns the validator's mapping with
      status 422 and leaves the world as it was.
    - A save that passes validation on the [new] route adds a row with the
      next id, the posted columns, the session's shop and a zero counter, and
      redirects to the page of that id.
    - A save that passes validation on the route of an existing row puts the
      posted columns and the session's shop in that row, keeps its id, scan
      counter and creation time, and redirects to the page of that id. *)
Theorem action_submission
    (W : Collaborators) (shop_ : string) (pid : option string)
    (form : gmap string string) (w : World) :
  (∀ n r, form !! "action" = Some "delete" → js_Number W pid = Some n →
     List.find (has_id n) (table w) = Some r →
     action W shop_ pid form w =
       (OK (Redirect "/app"),
        with_table (List.filter (λ x, negb (has_id n x)) (table w)) w)) ∧
  (∀ errors, form !! "action" ≠ Some "delete" → validateQRCode form = Some errors →
     action W shop_ pid form w = (OK (Json 422 errors), w)) ∧
  (∀ t p v h d, form = save_form t p v h d → t ≠ "" → p ≠ "" → d ≠ "" →
     pid = Some "new" →
     action W shop_ pid form w =
       (OK (Redirect ("/app/qrcodes/" +:+ string_of_Z (next_id w))),
        {| table := table w ++
             [ {| id := next_id w; title := t; shop := shop_; productId := p;
                  productHandle := h; productVariantId := v; destination := d;
                  scans := 0; createdAt := clock w |} ];
           next_id := next_id w + 1; clock := clock w; calls := calls w |})) ∧
  (∀ t p v h d n r, form = save_form t p v h d → t ≠ "" → p ≠ "" → d ≠ "" →
     pid ≠ Some "new" → js_Number W pid = Some n →
     List.find (has_id n) (table w) = Some r →
     action W shop_ pid form w =
       (OK (Redirect ("/app/qrcodes/" +:+ string_of_Z n)),
        with_table
          (List.map (λ x, if has_id n x then
                            {| id := id x; title := t; shop := shop_; productId := p;
                               productHandle := h; productVariantId := v;
                               destination := d; scans := scans x;
                               createdAt := createdAt x |}
                          else x) (table w)) w)).
Proof.
  split_and!.
  - intros n r Hdel Hn Hf. unfold action.
    rewrite lookup_insert_ne by done. rewrite Hdel.
    rewrite bool_decide_eq_true_2 by reflexivity.
    unfold mbind, M_bind, db_delete. rewrite Hn. simpl. rewrite Hf.
    apply find_has_id in Hf as [-> _]. reflexivity.
  - intros errors Hact Hv. unfold action.
    rewrite lookup_insert_ne by done.
    rewrite bool_decide_eq_false_2 by assumption.
    now rewrite validateQRCode_shop, Hv.
  - intros t p v h d -> Ht Hp Hd ->. unfold action.
    rewrite lookup_insert_ne by done.
    rewrite bool_decide_eq_false_2 by (unfold save_form; now simplify_map_eq).
    rewrite save_form_valid by assumption.
    rewrite bool_decide_eq_true_2 by reflexivity.
    unfold mbind, M_bind, db_create. rewrite save_form_all_writable.
    rewrite save_form_columns. reflexivity.
  - intros t p v h d n r -> Ht Hp Hd Hnew Hn Hf. unfold action.
    rewrite lookup_insert_ne by done.
    rewrite bool_decide_eq_false_2 by (unfold save_form; now simplify_map_eq).
    rewrite save_form_valid by assumption.
    rewrite bool_decide_eq_false_2 by assumption.
    unfold mbind, M_bind, db_update. rewrite save_form_only_writable, Hn. simpl.
    rewrite Hf. rewrite save_form_columns.
    apply find_has_id in Hf as [-> _]. simpl. unfold mret, M_ret.
    erewrite map_ext; [reflexivity|].
    intros x. simpl. now rewrite save_form_columns.
Qed.

Lemma action_submission_witness :
  action demo "demo.myshopify.com" (Some "2") delete_form demo_world
    = (OK (Redirect "/app"),
       with_table [mug_product_code; broken_cart_code; other_shop_code; orphan_code]
                  demo_world) ∧
  action demo "demo.myshopify.com" (Some "new")
         {[ "productId" := "gid://shopify/Product/10" ]} demo_world
    = (OK (Json 422 {[ "title" := "Title is required";
                       "destination" := "Destination is required" ]}), demo_world) ∧
  fst (action demo "demo.myshopify.com" (Some "new")
         (save_form "Cup" "gid://shopify/Product/11" "gid://shopify/ProductVariant/5"
                    "cup" "cart") demo_world)
    = OK (Redirect "/app/qrcodes/8") ∧
  fst (action demo "demo.myshopify.com" (Some "1")
         (save_form "Big mug" "gid://shopify/Product/10"
                    "gid://shopify/ProductVariant/12345" "mug" "cart") demo_world)
    = OK (Redirect "/app/qrcodes/1").
Proof.
  split_and!.
  - destruct (action_submission demo "demo.myshopify.com" (Some "2") delete_form
                demo_world) as (Hdelete & _).
    exact (Hdelete 2 mug_cart_code eq_refl eq_refl eq_refl).
  - destruct (action_submission demo "demo.myshopify.com" (Some "new")
                {[ "productId" := "gid://shopify/Product/10" ]} demo_world)
      as (_ & Hinvalid & _).
    apply Hinvalid; [discriminate | reflexivity].
  - destruct (action_submission demo "demo.myshopify.com" (Some "new")
                (save_form "Cup" "gid://shopify/Product/11"
                   "gid://shopify/ProductVariant/5" "cup" "cart") demo_world)
      as (_ & _ & Hcreate & _).
    rewrite (Hcreate _ _ _ _ _ eq_refl); [reflexivity | discriminate..| reflexivity].
  - destruct (action_submission demo "demo.myshopify.com" (Some "1")
                (save_form "Big mug" "gid://shopify/Product/10"
                   "gid://shopify/ProductVariant/12345" "mug" "cart") demo_world)
      as (_ & _ & _ & Hupdate).
    rewrite (Hupdate _ _ _ _ _ 1 mug_product_code eq_refl);
      [reflexivity | discriminate.. | reflexivity | reflexivity].
Defined.

(** * Further properties of the code *)

(** ** The pattern and the resolver, in full *)

(** The group captured by the pattern of [getDestinationUrl] is [d] exactly
    when the text splits into a part without the pattern, the literal, the
    non-empty digits [d], and a rest that does not go on with a digit: the
    match is the leftmost one and the digits are taken greedily. *)
Theorem regex_exec_leftmost_greedy (s d : string) :
  regex_exec s = Some d ↔
  ∃ pre post, s = pre +:+ variant_literal +:+ d +:+ post ∧ d ≠ "" ∧
    all_digits d = true ∧ ¬ matches_variant_pattern pre ∧
    starts_with_digit post = false.
Proof.
  split; [apply regex_exec_first|].
  intros (pre & post & -> & ? & ? & ? & ?). now apply regex_exec_decomposed.
Qed.

(** [getDestinationUrl] returns a URL in two cases only: the product page
    of a [product] record, and otherwise the cart link for the digits of the
    leftmost occurrence of the pattern in the variant reference. *)
Theorem getDestinationUrl_OK_iff (q : QRCode) (location : string) :
  getDestinationUrl q = OK location ↔
  (destination q = "product" ∧
   location = "https://" +:+ shop q +:+ "/products/" +:+ productHandle q) ∨
  (destination q ≠ "product" ∧
   ∃ pre D post, productVariantId q = pre +:+ variant_literal +:+ D +:+ post ∧
     D ≠ "" ∧ all_digits D = true ∧ ¬ matches_variant_pattern pre ∧
     starts_with_digit post = false ∧
     location = "https://" +:+ shop q +:+ "/cart/" +:+ D +:+ ":1").
Proof.
  unfold getDestinationUrl.
  destruct (String.eqb_spec (destination q) "product") as [Hk|Hk].
  - split.
    + intros [= <-]. now left.
    + intros [[_ ->]|[? _]]; [reflexivity | contradiction].
  - destruct (regex_exec (productVariantId q)) as [D|] eqn:Hx; unfold invariant.
    + split.
      * intros [= <-]. right. split; [assumption|].
        apply regex_exec_first in Hx as (pre & post & ? & ? & ? & ? & ?).
        exists pre, D, post. now split_and!.
      * intros [[? _]|[_ (pre & D' & post & Hv & ? & ? & ? & ? & ->)]];
          [contradiction|].
        rewrite Hv, regex_exec_decomposed in Hx by assumption. now injection Hx as ->.
    + split; [discriminate|].
      intros [[? _]|[_ (pre & D' & post & Hv & ? & ? & ? & ? & ->)]];
        [contradiction|].
      rewrite Hv, regex_exec_decomposed in Hx by assumption. discriminate.
Qed.

(** ** The validator looks at three keys only *)

(** Two drafts that agree on whether title, product reference and
    destination are filled get the same verdict, whatever else they carry:
    the variant reference, the handle and the shop are never looked at. *)
Theorem validateQRCode_only_three_keys (data1 data2 : gmap string string) :
  truthy (data1 !! "title") = truthy (data2 !! "title") →
  truthy (data1 !! "productId") = truthy (data2 !! "productId") →
  truthy (data1 !! "destination") = truthy (data2 !! "destination") →
  validateQRCode data1 = validateQRCode data2.
Proof.
  intros Ht Hp Hd. unfold validateQRCode. now rewrite Ht, Hp, Hd.
Qed.

Lemma validateQRCode_only_three_keys_witness :
  validateQRCode (save_form "Mug" "gid://shopify/Product/10" "" "" "cart")
  = validateQRCode (<["shop" := "demo.myshopify.com"]>
      (save_form "Cup" "gid://shopify/Product/11" "gid://shopify/ProductVariant/5"
                 "cup" "product")).
Proof.
  apply validateQRCode_only_three_keys; reflexivity.
Defined.

(** ** Enrichment: calls, failures and the view *)

(** [supplementQRCode] always issues its two remote calls, the encoder
    first and the product lookup second, whatever their outcome, and changes
    nothing else.  A failed lookup is what it throws, before a resolver
    failure, which comes before an encoder failure. *)
Theorem supplementQRCode_calls_and_priority (W : Collaborators) (q : QRCode) (w : World) :
  let href := app_origin W +:+ "/qrcodes/" +:+ string_of_Z (id q) +:+ "/scan" in
  calls (snd (supplementQRCode W q w))
    = calls w ++ [EncodeCall href; GraphqlCall (productId q)] ∧
  table (snd (supplementQRCode W q w)) = table w ∧
  next_id (snd (supplementQRCode W q w)) = next_id w ∧
  (∀ e, graphql W (productId q) = Err e → fst (supplementQRCode W q w) = Err e) ∧
  (∀ p e, graphql W (productId q) = OK p → getDestinationUrl q = Err e →
     fst (supplementQRCode W q w) = Err e) ∧
  (∀ p location e, graphql W (productId q) = OK p → getDestinationUrl q = OK location →
     toDataURL W href = Err e → fst (supplementQRCode W q w) = Err e).
Proof.
  intros href. rewrite supplementQRCode_run. unfold supplement_outcome. simpl.
  split_and!; try reflexivity.
  - now intros e ->.
  - now intros p e -> ->.
  - intros p location e -> -> H. unfold href, scan_href in *. now rewrite H.
Qed.

(** What every view returned by [supplementQRCode] satisfies: it carries
    the record it was made from, the destination the resolver gives for that
    record and the payload the encoder gives for its scan link; the deleted
    flag is set exactly when there is no product title or an empty one; the
    title is absent exactly when the lookup found no product; and there is
    no alt text without an image. *)
Theorem supplementQRCode_view (W : Collaborators) (q : QRCode) (w : World) (v : View) :
  fst (supplementQRCode W q w) = OK v →
  qrCode_fields v = q ∧
  getDestinationUrl q = OK (destinationUrl v) ∧
  toDataURL W (app_origin W +:+ "/qrcodes/" +:+ string_of_Z (id q) +:+ "/scan")
    = OK (image v) ∧
  (productDeleted v = true ↔ productTitle v = None ∨ productTitle v = Some "") ∧
  (productTitle v = None ↔ graphql W (productId q) = OK None) ∧
  (productImage v = None → productAlt v = None).
Proof.
  rewrite supplementQRCode_run. unfold supplement_outcome, scan_href. simpl.
  destruct (graphql W (productId q)) as [product|]; [|discriminate].
  destruct (getDestinationUrl q) as [location|]; [|discriminate].
  destruct (toDataURL W _) as [payload|]; [|discriminate].
  intros [= <-]. simpl. split_and!; try reflexivity.
  - destruct product as [[[|c t] nodes]|]; simpl;
      intuition (auto; discriminate).
  - destruct product; simpl; split; congruence.
  - destruct product as [[t [|node nodes]]|]; simpl; try reflexivity. discriminate.
Qed.

Lemma supplementQRCode_view_witness :
  ∃ v, fst (supplementQRCode demo mug_cart_code demo_world) = OK v ∧
       qrCode_fields v = mug_cart_code ∧
       getDestinationUrl mug_cart_code = OK (destinationUrl v) ∧
       (productDeleted v = true ↔ productTitle v = None ∨ productTitle v = Some "").
Proof.
  eexists. split; [reflexivity|].
  destruct (supplementQRCode_view demo mug_cart_code demo_world _ eq_refl)
    as (Hq & Hd & _ & Hdel & _).
  split_and!; assumption.
Defined.

Lemma settle_all_Err {A : Type} (rs : list (result A)) (e : error) :
  Err e ∈ rs → ∃ e', settle_all rs = Err e'.
Proof.
  induction rs as [|[a|e0] rs IH]; simpl.
  - now intros ?%elem_of_nil.
  - intros [[=]|Hin]%elem_of_cons. destruct (IH Hin) as [e' ->]. eauto.
  - eauto.
Qed.

(** One record whose enrichment throws makes the whole listing of its shop
    throw; the remote calls for every row of the shop have been issued all
    the same. *)
Theorem getQRCodes_one_failure (W : Collaborators) (s : string) (w : World)
    (r : QRCode) (e : error) :
  r ∈ rows_of_shop s (table w) →
  fst (supplementQRCode W r w) = Err e →
  (∃ e', fst (getQRCodes W s w) = Err e') ∧
  calls (snd (getQRCodes W s w))
    = calls w ++ (rows_of_shop s (table w) ≫= supplement_calls W).
Proof.
  intros Hr He. rewrite supplementQRCode_run in He. simpl in He.
  rewrite getQRCodes_run. simpl. split; [|reflexivity].
  apply (settle_all_Err _ e). rewrite <- He. now apply list_elem_of_fmap_2.
Qed.

Lemma getQRCodes_one_failure_witness :
  ∃ e', fst (getQRCodes demo "demo.myshopify.com" demo_world) = Err e'.
Proof.
  apply (getQRCodes_one_failure demo "demo.myshopify.com" demo_world broken_cart_code
           (InvariantFailed "Unrecognized product variant ID")).
  - apply rows_of_shop_elem. split; [|reflexivity].
    apply list_elem_of_In. vm_compute. tauto.
  - reflexivity.
Defined.

(** When the listing succeeds its views are the rows of the shop, one view
    per row in the order of the query; every view belongs to the shop and
    carries the destination and the image of its own record. *)
Theorem getQRCodes_views (W : Collaborators) (s : string) (w : World)
    (views : list View) :
  fst (getQRCodes W s w) = OK views →
  qrCode_fields <$> views = rows_of_shop s (table w) ∧
  Forall (λ v, shop (qrCode_fields v) = s ∧ qrCode_fields v ∈ table w ∧
               getDestinationUrl (qrCode_fields v) = OK (destinationUrl v) ∧
               toDataURL W (app_origin W +:+ "/qrcodes/" +:+
                            string_of_Z (id (qrCode_fields v)) +:+ "/scan")
                 = OK (image v)) views.
Proof.
  rewrite getQRCodes_run. simpl. intros Hs%settle_all_OK.
  assert (Hall : Forall2 (λ r v, supplement_outcome W r = OK v)
                         (rows_of_shop s (table w)) views).
  { revert views Hs. induction (rows_of_shop s (table w)) as [|r rows IH];
      intros [|v views]; try discriminate; [constructor|].
    rewrite !fmap_cons. intros [= Hr Hrest]. constructor; [assumption | now apply IH]. }
  assert (Hview : ∀ r v, supplement_outcome W r = OK v →
            qrCode_fields v = r ∧ getDestinationUrl r = OK (destinationUrl v) ∧
            toDataURL W (scan_href W (id r)) = OK (image v)).
  { intros r v. unfold supplement_outcome.
    destruct (graphql W (productId r)); [|discriminate].
    destruct (getDestinationUrl r); [|discriminate].
    destruct (toDataURL W _); [|discriminate].
    now intros [= <-]. }
  assert (Hrows : qrCode_fields <$> views = rows_of_shop s (table w)).
  { clear Hs. induction Hall as [|r v rows views Hr _ IH]; [reflexivity|].
    rewrite fmap_cons, IH. f_equal. now apply Hview. }
  assert (Hown : Forall (λ v, supplement_outcome W (qrCode_fields v) = OK v) views).
  { clear Hs Hrows. induction Hall as [|r v rows views Hr _ IH]; constructor;
      [|assumption].
    destruct (Hview r v Hr) as [-> _]. assumption. }
  split; [assumption|].
  apply Forall_forall. intros v Hv.
  assert (Hin : qrCode_fields v ∈ rows_of_shop s (table w)).
  { rewrite <- Hrows. now apply list_elem_of_fmap_2. }
  apply rows_of_shop_elem in Hin as [Hin Hshop].
  rewrite Forall_forall in Hown.
  destruct (Hview _ _ (Hown v Hv)) as (_ & Hd & Hi).
  now split_and!.
Qed.

Lemma getQRCodes_views_witness :
  ∃ views, fst (getQRCodes demo "other.myshopify.com" demo_world) = OK views ∧
           qrCode_fields <$> views = [other_shop_code].
Proof.
  eexists. split; [reflexivity|].
  apply (getQRCodes_views demo "other.myshopify.com" demo_world _ eq_refl).
Defined.

(** [getQRCode] never writes.  When no row has the id it returns [null],
    throws nothing and calls no collaborator; when a row has it, it returns
    or throws what [supplementQRCode] does for that row. *)
Theorem getQRCode_outcome (W : Collaborators) (n : option Z) (w : World) :
  table (snd (getQRCode W n w)) = table w ∧
  next_id (snd (getQRCode W n w)) = next_id w ∧
  ((n ≫= λ i, List.find (has_id i) (table w)) = None →
     getQRCode W n w = (OK None, w)) ∧
  (∀ r, (n ≫= λ i, List.find (has_id i) (table w)) = Some r →
     getQRCode W n w =
       (match fst (supplementQRCode W r w) with
        | OK v => OK (Some v)
        | Err e => Err e
        end, snd (supplementQRCode W r w))).
Proof.
  destruct n as [i|]; simpl.
  - destruct (List.find (has_id i) (table w)) as [r|] eqn:Hf.
    + rewrite (getQRCode_present W i r w Hf). simpl.
      split_and!; [reflexivity | reflexivity | discriminate |].
      intros ? [= <-]. now rewrite supplementQRCode_run.
    + rewrite getQRCode_absent by (simpl; assumption).
      split_and!; [reflexivity | reflexivity | reflexivity | discriminate].
  - rewrite getQRCode_absent by reflexivity.
    split_and!; [reflexivity | reflexivity | reflexivity | discriminate].
Qed.

(** ** The public page and the form page *)

Lemma public_loader_run (W : Collaborators) (pid : option string) (w : World) :
  PublicPage.loader W pid w =
  if truthy pid then
    match js_Number W pid with
    | Some n =>
        match List.find (has_id n) (table w) with
        | Some r =>
            (match toDataURL W (scan_href W n) with
             | OK payload => OK {| page_title := title r; page_image := payload |}
             | Err e => Err e
             end, log_call (EncodeCall (scan_href W n)) w)
        | None => (Err not_found, w)
        end
    | None => (Err not_found, w)
    end
  else (Err not_found, w).
Proof.
  destruct pid as [[|c s]|]; try reflexivity.
  unfold PublicPage.loader, truthy_value, db_findFirst, lift, getQRCodeImage.
  unfold mbind at 1 2 3 4, M_bind, mret, M_ret. simpl.
  destruct (Number W (String c s)) as [n|]; simpl; [|reflexivity].
  destruct (List.find (has_id n) (table w)) as [r|]; simpl; [|reflexivity].
  now destruct (toDataURL W (scan_href W n)).
Qed.

(** The loader of the public page.  Without an id, or with an id that no
    row carries, it throws the not-found error and calls nothing.  For the
    id of a row it asks the encoder once, for the scan link of that id, and
    answers with the row's title and the payload, or throws what the encoder
    throws.  It never writes to the table, and it does not count a scan. *)
Theorem public_loader_outcome (W : Collaborators) (pid : option string) (w : World) :
  table (snd (PublicPage.loader W pid w)) = table w ∧
  (truthy pid = false → PublicPage.loader W pid w = (Err not_found, w)) ∧
  ((∀ r, r ∈ table w → js_Number W pid ≠ Some (id r)) →
     PublicPage.loader W pid w = (Err not_found, w)) ∧
  (∀ n r, truthy pid = true → js_Number W pid = Some n →
     List.find (has_id n) (table w) = Some r →
     let href := app_origin W +:+ "/qrcodes/" +:+ string_of_Z n +:+ "/scan" in
     calls (snd (PublicPage.loader W pid w)) = calls w ++ [EncodeCall href] ∧
     (∀ payload, toDataURL W href = OK payload →
        fst (PublicPage.loader W pid w)
          = OK {| page_title := title r; page_image := payload |}) ∧
     (∀ e, toDataURL W href = Err e → fst (PublicPage.loader W pid w) = Err e)).
Proof.
  rewrite public_loader_run. split_and!.
  - destruct (truthy pid); [|reflexivity].
    destruct (js_Number W pid) as [n|]; [|reflexivity].
    now destruct (List.find (has_id n) (table w)).
  - now intros ->.
  - intros Hno. destruct (truthy pid); [|reflexivity].
    destruct (js_Number W pid) as [n|]; [|reflexivity].
    rewrite find_has_id_None; [reflexivity|].
    intros r Hr Hid. apply (Hno r Hr). now rewrite Hid.
  - intros n r -> -> -> href. unfold scan_href. fold href. split_and!.
    + reflexivity.
    + now intros payload ->.
    + now intros e ->.
Qed.

(** The image on the public page of a record is the image of its enriched
    view, and the title is the record's title: both ask the encoder for the
    same scan link. *)
Theorem public_page_matches_view (W : Collaborators) (s : string) (n : Z)
    (w : World) (page : Page) (v : View) :
  s ≠ "" → Number W s = Some n →
  fst (PublicPage.loader W (Some s) w) = OK page →
  fst (getQRCode W (Some n) w) = OK (Some v) →
  page_image page = image v ∧ page_title page = title (qrCode_fields v).
Proof.
  intros Hs Hn. rewrite public_loader_run.
  rewrite (truthy_Some s Hs). simpl. rewrite Hn.
  destruct (List.find (has_id n) (table w)) as [r|] eqn:Hf; [|discriminate].
  rewrite (getQRCode_present W n r w Hf). simpl.
  pose proof (find_has_id _ _ _ Hf) as [Hid _].
  unfold supplement_outcome. rewrite Hid.
  destruct (toDataURL W (scan_href W n)) as [payload|]; [|discriminate].
  intros [= <-].
  destruct (graphql W (productId r)); [|discriminate].
  destruct (getDestinationUrl r); [|discriminate].
  intros [= <-]. split; reflexivity.
Qed.

Lemma public_page_matches_view_witness :
  ∃ page v, fst (PublicPage.loader demo (Some "2") demo_world) = OK page ∧
            fst (getQRCode demo (Some 2) demo_world) = OK (Some v) ∧
            page_image page = image v ∧ page_title page = "Mug to cart".
Proof.
  eexists _, _. split; [reflexivity|]. split; [reflexivity|].
  destruct (public_page_matches_view demo "2" 2 demo_world _ _
              ltac:(discriminate) eq_refl eq_refl eq_refl) as [Himage Htitle].
  split; [exact Himage | exact Htitle].
Defined.

Lemma getQRCode_frame (W : Collaborators) (n : option Z) (w : World) :
  table (snd (getQRCode W n w)) = table w ∧
  next_id (snd (getQRCode W n w)) = next_id w.
Proof.
  destruct (n ≫= λ i, List.find (has_id i) (table w)) as [r|] eqn:Hf.
  - destruct n as [i|]; [|discriminate]. simpl in Hf.
    now rewrite (getQRCode_present W i r w Hf).
  - now rewrite (getQRCode_absent W n w Hf).
Qed.

Lemma public_loader_frame (W : Collaborators) (pid : option string) (w : World) :
  table (snd (PublicPage.loader W pid w)) = table w ∧
  next_id (snd (PublicPage.loader W pid w)) = next_id w.
Proof.
  rewrite public_loader_run. destruct (truthy pid); [|now split].
  destruct (js_Number W pid) as [n|]; [|now split].
  now destruct (List.find (has_id n) (table w)).
Qed.

(** The loader of the form.  On the [new] route it answers with the default
    draft, destination [product] and an empty title, without reading the
    table or calling a collaborator.  For any other id it never writes, and
    an id that no row carries gives [null], not an error. *)
Theorem form_loader_outcome (W : Collaborators) (pid : option string) (w : World) :
  table (snd (FormPage.loader W pid w)) = table w ∧
  (pid = Some "new" → FormPage.loader W pid w = (OK (NewDraft "product" ""), w)) ∧
  (pid ≠ Some "new" →
     (js_Number W pid ≫= λ i, List.find (has_id i) (table w)) = None →
     FormPage.loader W pid w = (OK (Existing None), w)) ∧
  (∀ r, pid ≠ Some "new" →
     (js_Number W pid ≫= λ i, List.find (has_id i) (table w)) = Some r →
     FormPage.loader W pid w =
       (match fst (supplementQRCode W r w) with
        | OK v => OK (Existing (Some v))
        | Err e => Err e
        end, snd (supplementQRCode W r w))).
Proof.
  unfold FormPage.loader. split_and!.
  - case_bool_decide; [reflexivity|].
    destruct (getQRCode_frame W (js_Number W pid) w) as [Ht _].
    unfold mbind, M_bind. destruct (getQRCode W (js_Number W pid) w) as [[v|e] w'];
      exact Ht.
  - intros Hnew. now rewrite bool_decide_eq_true_2.
  - intros Hnew Hf. rewrite bool_decide_eq_false_2 by assumption.
    unfold mbind, M_bind. now rewrite (getQRCode_absent W _ w Hf).
  - intros r Hnew Hf. rewrite bool_decide_eq_false_2 by assumption.
    destruct (js_Number W pid) as [n|]; [|discriminate]. simpl in Hf.
    unfold mbind, M_bind. rewrite (getQRCode_present W n r w Hf).
    rewrite supplementQRCode_run. simpl.
    now destruct (supplement_outcome W r).
Qed.

(** The two flags of the form are never both set, one of them is set
    exactly while a submission is under way, and the deleting flag is set
    for exactly the submissions that the [action] treats as a delete. *)
Theorem form_flags (W : Collaborators) (shop_ : string) (pid : option string)
    (nav : Navigation) (form : gmap string string) (w : World) :
  (FormPage.isSaving nav && FormPage.isDeleting nav = false) ∧
  (FormPage.isSaving nav || FormPage.isDeleting nav
     = String.eqb (nav_state nav) "submitting") ∧
  (nav_state nav = "submitting" → nav_formData nav = Some form →
     (FormPage.isDeleting nav = true →
        action W shop_ pid form w
          = (_ ← db_delete (js_Number W pid); mret (Redirect "/app")) w) ∧
     (FormPage.isDeleting nav = false →
        ∀ errors, validateQRCode form = Some errors →
          action W shop_ pid form w = (OK (Json 422 errors), w))).
Proof.
  unfold FormPage.isSaving, FormPage.isDeleting, FormPage.submitted_action.
  split_and!.
  - destruct (String.eqb _ _), (bool_decide _); reflexivity.
  - destruct (String.eqb _ _), (bool_decide _); reflexivity.
  - intros -> ->. simpl. split.
    + intros Hdel%bool_decide_eq_true. unfold action.
      rewrite lookup_insert_ne by done. now rewrite bool_decide_eq_true_2.
    + intros Hdel%bool_decide_eq_false errors Hv. unfold action.
      rewrite lookup_insert_ne by done. rewrite bool_decide_eq_false_2 by assumption.
      now rewrite validateQRCode_shop, Hv.
Qed.

(** ** The table under the handlers *)

Lemma filter_sublist_of (P : QRCode → bool) (l : list QRCode) :
  List.filter P l `sublist_of` l.
Proof.
  induction l as [|x l IH]; simpl; [constructor|].
  destruct (P x); now constructor.
Qed.

Lemma ids_fresh_map (f : QRCode → QRCode) (w : World) :
  (∀ x, id (f x) = id x) → ids_fresh w →
  ids_fresh (with_table (List.map f (table w)) w).
Proof.
  intros Hf [Hnd Hlt]. split; simpl.
  - replace (id <$> List.map f (table w)) with (id <$> table w); [assumption|].
    clear Hnd Hlt. induction (table w) as [|x l IH]; [reflexivity|].
    cbn [List.map]. rewrite !fmap_cons. f_equal; [symmetry; apply Hf | apply IH].
  - clear Hnd. induction Hlt as [|x l Hx _ IH]; simpl; constructor; [|assumption].
    now rewrite Hf.
Qed.

Lemma ids_fresh_filter (P : QRCode → bool) (w : World) :
  ids_fresh w → ids_fresh (with_table (List.filter P (table w)) w).
Proof.
  intros [Hnd Hlt]. split; simpl.
  - eapply sublist_NoDup; [exact Hnd|]. apply fmap_sublist, filter_sublist_of.
  - rewrite Forall_forall in *. intros x Hx. apply Hlt.
    apply list_elem_of_In in Hx. apply filter_In in Hx as [Hx _].
    now apply list_elem_of_In.
Qed.

Lemma ids_fresh_append (r : QRCode) (w : World) :
  id r = next_id w → ids_fresh w →
  ids_fresh {| table := table w ++ [r]; next_id := next_id w + 1;
               clock := clock w; calls := calls w |}.
Proof.
  intros Hr [Hnd Hlt]. split; simpl.
  - rewrite fmap_app. apply NoDup_app. split_and!; [assumption| |].
    + intros n Hn. simpl. intros [->|[]%elem_of_nil]%elem_of_cons.
      apply list_elem_of_fmap in Hn as (x & Hx & Hin).
      rewrite Forall_forall in Hlt. specialize (Hlt x Hin). lia.
    + simpl. apply NoDup_singleton.
  - apply Forall_app. split.
    + eapply Forall_impl; [exact Hlt|]. simpl. intros. lia.
    + constructor; [lia | constructor].
Qed.

Lemma ids_fresh_log (cs : list call) (w : World) :
  ids_fresh w → ids_fresh (log_calls cs w).
Proof. intros H. exact H. Qed.

Lemma db_delete_fresh (n : option Z) (w : World) :
  ids_fresh w → ids_fresh (snd (db_delete n w)).
Proof.
  intros H. unfold db_delete.
  destruct (n ≫= λ i, List.find (has_id i) (table w)); simpl;
    [now apply ids_fresh_filter | assumption].
Qed.

Lemma db_create_fresh (data : gmap string string) (w : World) :
  ids_fresh w → ids_fresh (snd (db_create data w)).
Proof.
  intros H. unfold db_create. destruct (all_writable data); simpl; [|assumption].
  now apply ids_fresh_append.
Qed.

Lemma db_update_fresh (n : option Z) (data : gmap string string) (w : World) :
  ids_fresh w → ids_fresh (snd (db_update n data w)).
Proof.
  intros H. unfold db_update. destruct (only_writable data); simpl; [|assumption].
  destruct (n ≫= λ i, List.find (has_id i) (table w)) as [r|]; simpl; [|assumption].
  apply ids_fresh_map; [|assumption]. intros x. now destruct (has_id (id r) x).
Qed.

Lemma bind_snd_fresh {A B : Type} (m : M A) (k : A → M B) (w : World) :
  ids_fresh (snd (m w)) → (∀ a w', ids_fresh w' → ids_fresh (snd (k a w'))) →
  ids_fresh (snd ((m ≫= k) w)).
Proof.
  intros Hm Hk. unfold mbind, M_bind. destruct (m w) as [[a|e] w']; simpl in *;
    [now apply Hk | assumption].
Qed.

(** Every handler keeps the ids of the table those of a primary key: after
    a form submission, a scan, a listing, a lookup or a view of the public
    page, whether it succeeded or threw, no id occurs twice and every id is
    below the next one to be given. *)
Theorem handlers_keep_ids_fresh (W : Collaborators) (shop_ : string)
    (pid : option string) (form : gmap string string) (w : World) :
  ids_fresh w →
  ids_fresh (snd (action W shop_ pid form w)) ∧
  ids_fresh (snd (loader W pid w)) ∧
  ids_fresh (snd (getQRCodes W shop_ w)) ∧
  ids_fresh (snd (getQRCode W (js_Number W pid) w)) ∧
  ids_fresh (snd (PublicPage.loader W pid w)) ∧
  ids_fresh (snd (FormPage.loader W pid w)).
Proof.
  intros Hw.
  assert (Hsame : ∀ w', table w' = table w → next_id w' = next_id w → ids_fresh w').
  { intros w' Ht Hn. unfold ids_fresh. now rewrite Ht, Hn. }
  split_and!.
  - unfold action. case_bool_decide.
    + apply bind_snd_fresh; [now apply db_delete_fresh | now intros].
    + destruct (validateQRCode _); [assumption|].
      apply bind_snd_fresh; [|now intros].
      case_bool_decide; [now apply db_create_fresh | now apply db_update_fresh].
  - rewrite loader_run. destruct (truthy pid); [|assumption].
    destruct (js_Number W pid ≫= _) as [r|]; simpl; [|assumption].
    apply ids_fresh_map; [|assumption]. intros x. unfold increment_scans.
    now destruct (has_id (id r) x).
  - rewrite getQRCodes_run. simpl. now apply ids_fresh_log.
  - destruct (getQRCode_frame W (js_Number W pid) w) as (Ht & Hn).
    now apply Hsame.
  - destruct (public_loader_frame W pid w) as (Ht & Hn).
    now apply Hsame.
  - unfold FormPage.loader. case_bool_decide; [assumption|].
    apply bind_snd_fresh; [|now intros].
    destruct (getQRCode_frame W (js_Number W pid) w) as (Ht & Hn).
    now apply Hsame.
Qed.

Lemma handlers_keep_ids_fresh_witness :
  ids_fresh demo_world ∧
  ids_fresh (snd (action demo "demo.myshopify.com" (Some "new")
                    (save_form "Cup" "gid://shopify/Product/11"
                       "gid://shopify/ProductVariant/5" "cup" "cart") demo_world)) ∧
  ids_fresh (snd (loader demo (Some "3") demo_world)).
Proof.
  assert (H : ids_fresh demo_world).
  { apply (bool_decide_unpack (ids_fresh demo_world)). vm_compute. exact I. }
  split; [exact H|].
  destruct (handlers_keep_ids_fresh demo "demo.myshopify.com" (Some "new")
              (save_form "Cup" "gid://shopify/Product/11"
                 "gid://shopify/ProductVariant/5" "cup" "cart") demo_world H)
    as (Haction & _).
  destruct (handlers_keep_ids_fresh demo "demo.myshopify.com" (Some "3") ∅
              demo_world H) as (_ & Hscan & _).
  split; [exact Haction | exact Hscan].
Defined.

(** ** Write, then read *)

Lemma find_snoc (n : Z) (l : list QRCode) (r : QRCode) :
  List.find (has_id n) (l ++ [r]) =
  match List.find (has_id n) l with
  | Some x => Some x
  | None => if has_id n r then Some r else None
  end.
Proof.
  induction l as [|x l IH]; simpl; [reflexivity|].
  now destruct (has_id n x).
Qed.

Lemma find_map_same_id (g : QRCode → QRCode) (n : Z) (l : list QRCode) :
  (∀ x, id (g x) = id x) →
  List.find (has_id n) (List.map g l) = g <$> List.find (has_id n) l.
Proof.
  intros Hg. induction l as [|x l IH]; simpl; [reflexivity|].
  unfold has_id at 1. rewrite Hg. fold (has_id n x).
  now destruct (has_id n x).
Qed.

Lemma find_filter_self (n : Z) (l : list QRCode) :
  List.find (has_id n) (List.filter (λ x, negb (has_id n x)) l) = None.
Proof.
  induction l as [|x l IH]; simpl; [reflexivity|].
  destruct (has_id n x) eqn:Hx; simpl; [assumption|]. now rewrite Hx.
Qed.

Lemma find_filter_other (n m : Z) (l : list QRCode) :
  m ≠ n →
  List.find (has_id m) (List.filter (λ x, negb (has_id n x)) l)
  = List.find (has_id m) l.
Proof.
  intros Hne. induction l as [|x l IH]; simpl; [reflexivity|].
  destruct (has_id n x) eqn:Hx; simpl.
  - destruct (has_id m x) eqn:Hm; [|assumption].
    unfold has_id in *. apply Z.eqb_eq in Hx, Hm. congruence.
  - now destruct (has_id m x).
Qed.

Lemma find_fresh_None (w : World) :
  ids_fresh w → List.find (has_id (next_id w)) (table w) = None.
Proof.
  intros [_ Hlt]. apply find_has_id_None. intros r Hr.
  rewrite Forall_forall in Hlt. specialize (Hlt r Hr). lia.
Qed.

Lemma find_below_next (n : Z) (r : QRCode) (w : World) :
  ids_fresh w → List.find (has_id n) (table w) = Some r → n ≠ next_id w.
Proof.
  intros [_ Hlt] [Hid Hin]%find_has_id.
  rewrite Forall_forall in Hlt. specialize (Hlt r Hin). lia.
Qed.

Lemma string_of_Z_nonempty (n : Z) : string_of_Z n ≠ "".
Proof.
  unfold string_of_Z, NilZero.string_of_int.
  destruct (Z.to_int n) as [u|u]; [|discriminate].
  destruct u; discriminate.
Qed.

Lemma action_create_run (W : Collaborators) (shop_ t p v h d : string) (w : World) :
  t ≠ "" → p ≠ "" → d ≠ "" →
  action W shop_ (Some "new") (save_form t p v h d) w =
    (OK (Redirect ("/app/qrcodes/" +:+ string_of_Z (next_id w))),
     {| table := table w ++ [posted_row (next_id w) shop_ t p v h d 0 (clock w)];
        next_id := next_id w + 1; clock := clock w; calls := calls w |}).
Proof.
  intros Ht Hp Hd. unfold action.
  rewrite lookup_insert_ne by done.
  rewrite bool_decide_eq_false_2 by (unfold save_form; now simplify_map_eq).
  rewrite save_form_valid by assumption.
  rewrite bool_decide_eq_true_2 by reflexivity.
  unfold mbind, M_bind, db_create. rewrite save_form_all_writable.
  rewrite save_form_columns. reflexivity.
Qed.

Lemma action_update_run (W : Collaborators) (shop_ : string) (pid : option string)
    (t p v h d : string) (n : Z) (r : QRCode) (w : World) :
  t ≠ "" → p ≠ "" → d ≠ "" → pid ≠ Some "new" → js_Number W pid = Some n →
  List.find (has_id n) (table w) = Some r →
  action W shop_ pid (save_form t p v h d) w =
    (OK (Redirect ("/app/qrcodes/" +:+ string_of_Z n)),
     with_table
       (List.map (λ x, if has_id n x
                       then posted_row (id x) shop_ t p v h d (scans x) (createdAt x)
                       else x) (table w)) w).
Proof.
  intros Ht Hp Hd Hnew Hn Hf. unfold action.
  rewrite lookup_insert_ne by done.
  rewrite bool_decide_eq_false_2 by (unfold save_form; now simplify_map_eq).
  rewrite save_form_valid by assumption.
  rewrite bool_decide_eq_false_2 by assumption.
  unfold mbind, M_bind, db_update. rewrite save_form_only_writable, Hn. simpl.
  rewrite Hf. rewrite save_form_columns.
  apply find_has_id in Hf as [-> _]. simpl. unfold mret, M_ret.
  erewrite map_ext; [reflexivity|].
  intros x. simpl. now rewrite save_form_columns.
Qed.

Lemma action_delete_run (W : Collaborators) (shop_ : string) (pid : option string)
    (form : gmap string string) (n : Z) (r : QRCode) (w : World) :
  form !! "action" = Some "delete" → js_Number W pid = Some n →
  List.find (has_id n) (table w) = Some r →
  action W shop_ pid form w =
    (OK (Redirect "/app"),
     with_table (List.filter (λ x, negb (has_id n x)) (table w)) w).
Proof.
  intros Hdel Hn Hf. unfold action.
  rewrite lookup_insert_ne by done. rewrite Hdel.
  rewrite bool_decide_eq_true_2 by reflexivity.
  unfold mbind, M_bind, db_delete. rewrite Hn. simpl. rewrite Hf.
  apply find_has_id in Hf as [-> _]. reflexivity.
Qed.

(** After a valid save on the [new] route the row is found under the id
    the redirect names, with the posted columns, the session's shop and a
    zero counter; every row that was there is found as before, and the next
    id has moved on by one. *)
Theorem create_then_lookup (W : Collaborators) (shop_ t p v h d : string) (w : World) :
  ids_fresh w → t ≠ "" → p ≠ "" → d ≠ "" →
  let w' := snd (action W shop_ (Some "new") (save_form t p v h d) w) in
  fst (action W shop_ (Some "new") (save_form t p v h d) w)
    = OK (Redirect ("/app/qrcodes/" +:+ string_of_Z (next_id w))) ∧
  List.find (has_id (next_id w)) (table w')
    = Some (posted_row (next_id w) shop_ t p v h d 0 (clock w)) ∧
  (∀ n, n ≠ next_id w →
     List.find (has_id n) (table w') = List.find (has_id n) (table w)) ∧
  (∀ n r, List.find (has_id n) (table w) = Some r →
     List.find (has_id n) (table w') = Some r) ∧
  next_id w' = next_id w + 1.
Proof.
  intros Hw Ht Hp Hd w'. unfold w'. rewrite action_create_run by assumption. simpl.
  split_and!; try reflexivity.
  - rewrite find_snoc, find_fresh_None by assumption.
    unfold has_id. simpl. now rewrite Z.eqb_refl.
  - intros n Hn. rewrite find_snoc. destruct (List.find (has_id n) (table w));
      [reflexivity|]. unfold has_id. simpl.
    destruct (Z.eqb_spec (next_id w) n); congruence.
  - intros n r Hf. rewrite find_snoc. now rewrite Hf.
Qed.

Lemma create_then_lookup_witness :
  List.find (has_id 8)
    (table (snd (action demo "demo.myshopify.com" (Some "new")
                   (save_form "Cup" "gid://shopify/Product/11"
                      "gid://shopify/ProductVariant/5" "cup" "cart") demo_world)))
  = Some (posted_row 8 "demo.myshopify.com" "Cup" "gid://shopify/Product/11"
            "gid://shopify/ProductVariant/5" "cup" "cart" 0 200).
Proof.
  assert (H : ids_fresh demo_world).
  { apply (bool_decide_unpack (ids_fresh demo_world)). vm_compute. exact I. }
  destruct (create_then_lookup demo "demo.myshopify.com" "Cup"
              "gid://shopify/Product/11" "gid://shopify/ProductVariant/5" "cup" "cart"
              demo_world H ltac:(discriminate) ltac:(discriminate) ltac:(discriminate))
    as (_ & Hfound & _).
  exact Hfound.
Defined.

Lemma create_scan_run (W : Collaborators) (shop_ t p v h d : string) (w : World) :
  ids_fresh w → t ≠ "" → p ≠ "" → d ≠ "" →
  Number W (string_of_Z (next_id w)) = Some (next_id w) →
  let row := posted_row (next_id w) shop_ t p v h d 0 (clock w) in
  let w' := snd (action W shop_ (Some "new") (save_form t p v h d) w) in
  fst (loader W (Some (string_of_Z (next_id w))) w')
    = match getDestinationUrl row with
      | OK location => redirect W location
      | Err e => Err e
      end ∧
  List.find (has_id (next_id w))
            (table (snd (loader W (Some (string_of_Z (next_id w))) w')))
    = Some (posted_row (next_id w) shop_ t p v h d 1 (clock w)).
Proof.
  intros Hw Ht Hp Hd HN row w'. unfold w'.
  rewrite action_create_run by assumption. simpl.
  rewrite loader_run. rewrite (truthy_Some _ (string_of_Z_nonempty (next_id w))).
  simpl. rewrite HN. simpl.
  rewrite find_snoc, find_fresh_None by assumption.
  assert (Hself : has_id (next_id w)
                    (posted_row (next_id w) shop_ t p v h d 0 (clock w)) = true)
    by apply Z.eqb_refl.
  rewrite !Hself. cbn [fst snd with_table table].
  change (id (posted_row (next_id w) shop_ t p v h d 0 (clock w))) with (next_id w).
  split; [reflexivity|].
  rewrite find_map_same_id
    by (intros x; unfold increment_scans; now destruct (has_id (next_id w) x)).
  rewrite find_snoc, find_fresh_None by assumption. rewrite Hself.
  cbn [fmap option_fmap option_map]. unfold increment_scans. now rewrite Hself.
Qed.

(** A record that has just been created can be scanned under the id its
    redirect names: the resolver is asked for the posted columns and the
    session's shop, its URL goes to the redirect response, and the counter
    of the new row is 1 whatever the scan answers.  For a [product]
    destination the scan redirects to the product page of the posted handle
    when that location is accepted as a header value, and throws the
    header's error when it is not.  (The route parameter is the decimal text
    of the id; [Number] is to read it back.) *)
Theorem create_then_scan (W : Collaborators) (shop_ t p v h d : string) (w : World) :
  ids_fresh w → t ≠ "" → p ≠ "" → d ≠ "" →
  Number W (string_of_Z (next_id w)) = Some (next_id w) →
  let row := posted_row (next_id w) shop_ t p v h d 0 (clock w) in
  let w' := snd (action W shop_ (Some "new") (save_form t p v h d) w) in
  let page := "https://" +:+ shop_ +:+ "/products/" +:+ h in
  (∀ location, getDestinationUrl row = OK location →
     location_error W location = None →
     fst (loader W (Some (string_of_Z (next_id w))) w') = OK (Redirect location)) ∧
  (∀ location e, getDestinationUrl row = OK location →
     location_error W location = Some e →
     fst (loader W (Some (string_of_Z (next_id w))) w') = Err e) ∧
  (∀ e, getDestinationUrl row = Err e →
     fst (loader W (Some (string_of_Z (next_id w))) w') = Err e) ∧
  (d = "product" → location_error W page = None →
     fst (loader W (Some (string_of_Z (next_id w))) w') = OK (Redirect page)) ∧
  (∀ e, d = "product" → location_error W page = Some e →
     fst (loader W (Some (string_of_Z (next_id w))) w') = Err e) ∧
  List.find (has_id (next_id w))
            (table (snd (loader W (Some (string_of_Z (next_id w))) w')))
    = Some (posted_row (next_id w) shop_ t p v h d 1 (clock w)).
Proof.
  intros Hw Ht Hp Hd HN row w' page.
  destruct (create_scan_run W shop_ t p v h d w Hw Ht Hp Hd HN) as [Hout Hcount].
  fold row w' in Hout. split_and!.
  - intros location Hl Hok. rewrite Hout, Hl. unfold redirect. now rewrite Hok.
  - intros location e Hl He. rewrite Hout, Hl. unfold redirect. now rewrite He.
  - intros e Hl. now rewrite Hout, Hl.
  - intros Hk Hok. subst d.
    assert (Hg : getDestinationUrl row = OK page) by reflexivity.
    rewrite Hout, Hg. unfold redirect. now rewrite Hok.
  - intros e Hk He. subst d.
    assert (Hg : getDestinationUrl row = OK page) by reflexivity.
    rewrite Hout, Hg. unfold redirect. now rewrite He.
  - exact Hcount.
Qed.

Lemma create_then_scan_witness :
  fst (loader demo (Some "8")
         (snd (action demo "demo.myshopify.com" (Some "new")
                 (save_form "Cup" "gid://shopify/Product/11"
                    "gid://shopify/ProductVariant/5" "cup" "product") demo_world)))
  = OK (Redirect "https://demo.myshopify.com/products/cup") ∧
  fst (loader demo (Some "8")
         (snd (action demo "demo.myshopify.com" (Some "new")
                 (save_form "Cup" "gid://shopify/Product/11"
                    "gid://shopify/ProductVariant/5" (String (ascii_of_nat 10) "cup")
                    "product") demo_world)))
  = Err (Rejected "Invalid character in header content [Location]").
Proof.
  assert (H : ids_fresh demo_world).
  { apply (bool_decide_unpack (ids_fresh demo_world)). vm_compute. exact I. }
  split.
  - destruct (create_then_scan demo "demo.myshopify.com" "Cup"
                "gid://shopify/Product/11" "gid://shopify/ProductVariant/5" "cup"
                "product" demo_world H ltac:(discriminate) ltac:(discriminate)
                ltac:(discriminate) eq_refl) as (_ & _ & _ & Hproduct & _).
    exact (Hproduct eq_refl eq_refl).
  - destruct (create_then_scan demo "demo.myshopify.com" "Cup"
                "gid://shopify/Product/11" "gid://shopify/ProductVariant/5"
                (String (ascii_of_nat 10) "cup")
                "product" demo_world H ltac:(discriminate) ltac:(discriminate)
                ltac:(discriminate) eq_refl) as (_ & _ & _ & _ & Hrefused & _).
    exact (Hrefused _ eq_refl eq_refl).
Defined.

(** Validation does not protect the resolver.  A save with a destination
    other than [product] and a variant reference that does not contain the
    pattern is accepted and stored; scanning the new record then throws the
    invariant error, after the scan has been counted. *)
Theorem accepted_draft_can_fail_to_resolve
    (W : Collaborators) (shop_ t p v h d : string) (w : World) :
  ids_fresh w → t ≠ "" → p ≠ "" → d ≠ "" → d ≠ "product" →
  ¬ matches_variant_pattern v →
  Number W (string_of_Z (next_id w)) = Some (next_id w) →
  let w' := snd (action W shop_ (Some "new") (save_form t p v h d) w) in
  fst (action W shop_ (Some "new") (save_form t p v h d) w)
    = OK (Redirect ("/app/qrcodes/" +:+ string_of_Z (next_id w))) ∧
  fst (loader W (Some (string_of_Z (next_id w))) w')
    = Err (InvariantFailed "Unrecognized product variant ID") ∧
  scans <$> List.find (has_id (next_id w))
              (table (snd (loader W (Some (string_of_Z (next_id w))) w')))
    = Some 1.
Proof.
  intros Hw Ht Hp Hd Hk Hv HN w'.
  destruct (create_scan_run W shop_ t p v h d w Hw Ht Hp Hd HN) as [Hout Hcount].
  fold w' in Hout, Hcount. split_and!.
  - now rewrite action_create_run.
  - rewrite Hout. unfold getDestinationUrl, posted_row. simpl.
    apply String.eqb_neq in Hk. rewrite Hk.
    apply regex_exec_None in Hv. now rewrite Hv.
  - now rewrite Hcount.
Qed.

Lemma accepted_draft_can_fail_to_resolve_witness :
  fst (loader demo (Some "8")
         (snd (action demo "demo.myshopify.com" (Some "new")
                 (save_form "Cup" "gid://shopify/Product/11" "" "cup" "cart")
                 demo_world)))
  = Err (InvariantFailed "Unrecognized product variant ID").
Proof.
  assert (H : ids_fresh demo_world).
  { apply (bool_decide_unpack (ids_fresh demo_world)). vm_compute. exact I. }
  destruct (accepted_draft_can_fail_to_resolve demo "demo.myshopify.com" "Cup"
              "gid://shopify/Product/11" "" "cup" "cart" demo_world H
              ltac:(discriminate) ltac:(discriminate) ltac:(discriminate)
              ltac:(discriminate)
              ltac:(apply regex_exec_None; reflexivity) eq_refl)
    as (_ & Hscan & _).
  exact Hscan.
Defined.

(** After a delete the id is gone: a lookup gives [null], a scan and the
    public page throw the not-found error, and the rows with other ids are
    found as before. *)
Theorem delete_then_gone (W : Collaborators) (shop_ : string) (pid : option string)
    (form : gmap string string) (n : Z) (r : QRCode) (w : World) :
  form !! "action" = Some "delete" → truthy pid = true → js_Number W pid = Some n →
  List.find (has_id n) (table w) = Some r →
  let w' := snd (action W shop_ pid form w) in
  List.find (has_id n) (table w') = None ∧
  (∀ m, m ≠ n → List.find (has_id m) (table w') = List.find (has_id m) (table w)) ∧
  getQRCode W (Some n) w' = (OK None, w') ∧
  loader W pid w' = (Err not_found, w') ∧
  PublicPage.loader W pid w' = (Err not_found, w').
Proof.
  intros Hdel Hp Hn Hf w'. unfold w'.
  rewrite (action_delete_run W shop_ pid form n r w Hdel Hn Hf). simpl.
  assert (Hgone : List.find (has_id n)
            (table (with_table (List.filter (λ x, negb (has_id n x)) (table w)) w))
            = None) by apply find_filter_self.
  split_and!.
  - exact Hgone.
  - intros m Hm. now apply find_filter_other.
  - now apply getQRCode_absent.
  - rewrite loader_run, Hp, Hn. simpl. now rewrite find_filter_self.
  - rewrite public_loader_run, Hp, Hn. simpl. now rewrite find_filter_self.
Qed.

Lemma delete_then_gone_witness :
  loader demo (Some "2") (snd (action demo "demo.myshopify.com" (Some "2")
                                 delete_form demo_world))
  = (Err not_found,
     snd (action demo "demo.myshopify.com" (Some "2") delete_form demo_world)).
Proof.
  destruct (delete_then_gone demo "demo.myshopify.com" (Some "2") delete_form 2
              mug_cart_code demo_world eq_refl eq_refl eq_refl eq_refl)
    as (_ & _ & _ & Hscan & _).
  exact Hscan.
Defined.

(** A valid save on the route of an existing row replaces the posted
    columns and nothing else: id, scan counter and creation time stay, rows
    with other ids are found as before and no id is given out.  The row is
    selected by its id alone and takes the shop of the session: afterwards
    it is listed for that shop, and no other shop lists a row of that id. *)
Theorem update_then_lookup (W : Collaborators) (shop_ : string) (pid : option string)
    (t p v h d : string) (n : Z) (r : QRCode) (w : World) :
  t ≠ "" → p ≠ "" → d ≠ "" → pid ≠ Some "new" → js_Number W pid = Some n →
  List.find (has_id n) (table w) = Some r →
  let w' := snd (action W shop_ pid (save_form t p v h d) w) in
  let r' := posted_row n shop_ t p v h d (scans r) (createdAt r) in
  List.find (has_id n) (table w') = Some r' ∧
  (∀ m, m ≠ n → List.find (has_id m) (table w') = List.find (has_id m) (table w)) ∧
  next_id w' = next_id w ∧
  r' ∈ rows_of_shop shop_ (table w') ∧
  (∀ s x, s ≠ shop_ → x ∈ rows_of_shop s (table w') → id x ≠ n).
Proof.
  intros Ht Hp Hd Hnew Hn Hf w' r'. unfold w'.
  rewrite (action_update_run W shop_ pid t p v h d n r w) by assumption.
  cbn [snd with_table table next_id].
  set (g := λ x, if has_id n x
                 then posted_row (id x) shop_ t p v h d (scans x) (createdAt x)
                 else x).
  assert (Hg : ∀ x, id (g x) = id x) by (intros x; unfold g; now destruct (has_id n x)).
  assert (Hfound : List.find (has_id n) (List.map g (table w)) = Some r').
  { rewrite (find_map_same_id g n _ Hg), Hf. simpl. unfold g.
    pose proof (find_has_id _ _ _ Hf) as [Hid _].
    unfold has_id. rewrite Hid, Z.eqb_refl. reflexivity. }
  split_and!.
  - exact Hfound.
  - intros m Hm. rewrite (find_map_same_id g m _ Hg).
    destruct (List.find (has_id m) (table w)) as [x|] eqn:Hx; [|reflexivity].
    simpl. unfold g. apply find_has_id in Hx as [Hid _].
    unfold has_id. destruct (Z.eqb_spec (id x) n); [congruence | reflexivity].
  - reflexivity.
  - apply rows_of_shop_elem. split; [|reflexivity].
    now apply find_has_id in Hfound as [_ ?].
  - intros s x Hs [Hin Hshop]%rows_of_shop_elem Hid.
    apply list_elem_of_In, in_map_iff in Hin as (x0 & Hx0 & _).
    unfold g in Hx0. destruct (has_id n x0) eqn:Hh.
    + subst x. simpl in Hshop. congruence.
    + subst x. unfold has_id in Hh. apply Z.eqb_neq in Hh. contradiction.
Qed.

Lemma update_then_lookup_witness :
  List.find (has_id 7)
    (table (snd (action demo "demo.myshopify.com" (Some "7")
                   (save_form "Taken over" "gid://shopify/Product/10"
                      "gid://shopify/ProductVariant/12345" "mug" "product")
                   demo_world)))
  = Some (posted_row 7 "demo.myshopify.com" "Taken over" "gid://shopify/Product/10"
            "gid://shopify/ProductVariant/12345" "mug" "product" 1 106).
Proof.
  destruct (update_then_lookup demo "demo.myshopify.com" (Some "7") "Taken over"
              "gid://shopify/Product/10" "gid://shopify/ProductVariant/12345" "mug"
              "product" 7 other_shop_code demo_world
              ltac:(discriminate) ltac:(discriminate) ltac:(discriminate)
              ltac:(discriminate) eq_refl eq_refl) as (Hfound & _).
  exact Hfound.
Defined.

(** ** Scanning again and again *)

Lemma set_scans_set_scans (a b : Z) (r : QRCode) :
  set_scans a (set_scans b r) = set_scans a r.
Proof. reflexivity. Qed.

(** Serving the same scan request [k] times for the id of a row raises the
    scan counter of that row by exactly [k], whether the destination
    resolves or not, and leaves every other column of the row as it was. *)
Theorem scan_times_counts (W : Collaborators) (pid : option string) (n : Z)
    (k : nat) (r : QRCode) (w : World) :
  truthy pid = true → js_Number W pid = Some n →
  List.find (has_id n) (table w) = Some r →
  List.find (has_id n) (table (scan_times W pid k w))
    = Some (set_scans (scans r + Z.of_nat k) r).
Proof.
  intros Hp Hn. revert r w. induction k as [|k IH]; intros r w Hf.
  - simpl. rewrite Hf. f_equal. destruct r. unfold set_scans. simpl.
    f_equal. lia.
  - cbn [scan_times].
    assert (Hstep : List.find (has_id n) (table (snd (loader W pid w)))
                    = Some (set_scans (scans r + 1) r)).
    { rewrite loader_run, Hp, Hn. simpl. rewrite Hf. simpl.
      pose proof (find_has_id _ _ _ Hf) as [Hid _]. rewrite Hid.
      rewrite find_increment_scans, Hf. simpl.
      unfold increment_scans, has_id. now rewrite Hid, Z.eqb_refl. }
    rewrite (IH _ _ Hstep). rewrite set_scans_set_scans. f_equal.
    unfold set_scans. simpl. f_equal. lia.
Qed.

Lemma scan_times_counts_witness :
  scans <$> List.find (has_id 3) (table (scan_times demo (Some "3") 5 demo_world))
  = Some 9.
Proof.
  rewrite (scan_times_counts demo (Some "3") 3 5 broken_cart_code demo_world
             eq_refl eq_refl eq_refl).
  reflexivity.
Defined.

(** ** Scan links *)

Lemma parse_string_of_Z (n : Z) :
  Z.of_int <$> NilZero.int_of_string (string_of_Z n) = Some n.
Proof.
  unfold string_of_Z. rewrite NilZero.isi.
  - simpl. f_equal. apply DecimalZ.of_to.
  - destruct n; simpl; try discriminate.
    intros [= H]. now apply DecimalPos.Unsigned.to_uint_nonnil in H.
  - destruct n; simpl; try discriminate.
    intros [= H]. now apply DecimalPos.Unsigned.to_uint_nonnil in H.
Qed.

Lemma string_of_Z_inj (n m : Z) : string_of_Z n = string_of_Z m → n = m.
Proof.
  intros H. pose proof (parse_string_of_Z n) as Hn.
  rewrite H, parse_string_of_Z in Hn. congruence.
Qed.

Lemma append_length (a b : string) :
  String.length (a +:+ b) = (String.length a + String.length b)%nat.
Proof. induction a as [|x a IH]; simpl; [reflexivity | now rewrite IH]. Qed.

Lemma append_cancel_r (a b c : string) : a +:+ c = b +:+ c → a = b.
Proof.
  intros H. assert (Hlen : String.length a = String.length b).
  { apply (f_equal String.length) in H. rewrite !append_length in H. lia. }
  revert b H Hlen. induction a as [|x a IH]; intros [|y b]; simpl;
    try discriminate; [reflexivity|].
  intros [= -> H] [= Hlen]. f_equal. now apply IH.
Qed.

(** Two records get the same scan link only if they have the same id: the
    encoder is asked for a different text for every id. *)
Theorem getQRCodeImage_links_injective (W : Collaborators) (n m : Z) (w : World) :
  calls (snd (getQRCodeImage W n w)) = calls (snd (getQRCodeImage W m w)) →
  n = m.
Proof.
  unfold getQRCodeImage, scan_href. simpl.
  intros H%app_inv_head. injection H as H.
  apply (inj (String.append _)) in H. injection H as H.
  apply append_cancel_r in H. now apply string_of_Z_inj.
Qed.

Lemma getQRCodeImage_links_injective_witness :
  calls (snd (getQRCodeImage demo 5 demo_world))
    = calls (snd (getQRCodeImage demo (2 + 3) demo_world)) ∧ 5 = 2 + 3.
Proof.
  split; [reflexivity|].
  apply (getQRCodeImage_links_injective demo 5 (2 + 3) demo_world). reflexivity.
Defined.

(** ** [truncate] *)

Lemma truncate_eq (s : list N) (lo : option Z) :
  0 ≤ default 25 lo →
  IndexPage.truncate (Some s) lo =
  if Z.of_nat (length s) <=? default 25 lo then s
  else take (Z.to_nat (default 25 lo)) s ++ IndexPage.ellipsis.
Proof.
  intros Hlen. unfold IndexPage.truncate.
  destruct s as [|x s]; [now destruct (Z.leb_spec (Z.of_nat (length (@nil N))) (default 25 lo)); [|simpl in *; lia]|].
  destruct (Z.leb_spec (Z.of_nat (length (x :: s))) (default 25 lo)); [reflexivity|].
  unfold IndexPage.slice_from_start.
  destruct (Z.ltb_spec (default 25 lo) 0); [lia|].
  now rewrite Z.min_l by lia.
Qed.

(** [truncate] with a limit that is not negative (25 when none is given):
    an absent or empty text gives the empty text; a text within the limit is
    returned as it is; a longer one is cut to the limit and gets the
    ellipsis, so the result is never longer than the limit plus one, and up
    to the limit it agrees with the text. *)
Theorem truncate_outcome (str : option (list N)) (lo : option Z) :
  let limit := default 25 lo in
  0 ≤ limit →
  (str = None ∨ str = Some [] → IndexPage.truncate str lo = []) ∧
  (∀ s, str = Some s → Z.of_nat (length s) ≤ limit → IndexPage.truncate str lo = s) ∧
  (∀ s, str = Some s → limit < Z.of_nat (length s) →
     IndexPage.truncate str lo = take (Z.to_nat limit) s ++ [8230%N] ∧
     Z.of_nat (length (IndexPage.truncate str lo)) = limit + 1) ∧
  Z.of_nat (length (IndexPage.truncate str lo)) ≤ limit + 1 ∧
  (∀ s, str = Some s →
     take (Z.to_nat limit) (IndexPage.truncate str lo) = take (Z.to_nat limit) s).
Proof.
  intros limit Hlimit. unfold limit in *. split_and!.
  - intros [->| ->]; reflexivity.
  - intros s -> Hs. rewrite truncate_eq by assumption.
    now destruct (Z.leb_spec (Z.of_nat (length s)) (default 25 lo)); [|lia].
  - intros s -> Hs. rewrite truncate_eq by assumption.
    destruct (Z.leb_spec (Z.of_nat (length s)) (default 25 lo)); [lia|].
    split; [reflexivity|].
    rewrite length_app, length_take. simpl. lia.
  - destruct str as [s|]; [|simpl; lia].
    rewrite truncate_eq by assumption.
    destruct (Z.leb_spec (Z.of_nat (length s)) (default 25 lo)); [lia|].
    rewrite length_app, length_take. simpl. lia.
  - intros s ->. rewrite truncate_eq by assumption.
    destruct (Z.leb_spec (Z.of_nat (length s)) (default 25 lo)); [reflexivity|].
    rewrite take_app_le by (rewrite length_take; lia).
    now rewrite take_take, Nat.min_id.
Qed.

Lemma truncate_outcome_witness :
  IndexPage.truncate (Some [97; 98; 99; 100; 101]%N) (Some 3) = [97; 98; 99; 8230]%N ∧
  IndexPage.truncate (Some [97; 98; 99]%N) None = [97; 98; 99]%N.
Proof.
  destruct (truncate_outcome (Some [97; 98; 99; 100; 101]%N) (Some 3) ltac:(simpl; lia))
    as (_ & _ & Hlong & _).
  destruct (truncate_outcome (Some [97; 98; 99]%N) None ltac:(simpl; lia))
    as (_ & Hshort & _).
  split.
  - destruct (Hlong _ eq_refl ltac:(simpl; lia)) as [H _]. exact H.
  - apply Hshort; [reflexivity | simpl; lia].
Defined.

(** Truncating what has been truncated changes nothing, for every limit
    that is not negative. *)
Theorem truncate_idempotent (str : option (list N)) (lo : option Z) :
  0 ≤ default 25 lo →
  IndexPage.truncate (Some (IndexPage.truncate str lo)) lo = IndexPage.truncate str lo.
Proof.
  intros Hlimit. destruct str as [s|]; [|reflexivity].
  rewrite (truncate_eq s) by assumption.
  destruct (Z.leb_spec (Z.of_nat (length s)) (default 25 lo)) as [Hs|Hs].
  - rewrite truncate_eq by assumption.
    now destruct (Z.leb_spec (Z.of_nat (length s)) (default 25 lo)); [|lia].
  - rewrite truncate_eq by assumption.
    destruct (Z.leb_spec
                (Z.of_nat (length (take (Z.to_nat (default 25 lo)) s ++ IndexPage.ellipsis)))
                (default 25 lo)) as [Hr|Hr].
    + rewrite length_app, length_take in Hr. simpl in Hr. lia.
    + rewrite take_app_le by (rewrite length_take; lia).
      now rewrite take_take, Nat.min_id.
Qed.

Lemma truncate_idempotent_witness :
  IndexPage.truncate (Some (IndexPage.truncate (Some [97; 98; 99; 100; 101]%N) (Some 3)))
                     (Some 3)
  = [97; 98; 99; 8230]%N.
Proof.
  rewrite (truncate_idempotent (Some [97; 98; 99; 100; 101]%N) (Some 3)
             ltac:(simpl; lia)).
  reflexivity.
Defined.
